(** * The B-spline core of main.cpp: knot vector, span search, blending

    A shallow embedding of [standardKnot], [delta], [efficientBSpline] and of
    the two coordinate conversions of [MyCallbacks], with the properties the
    specification states about them.

    Modelling decisions.
    - The source computes in [float]. The functions below are written once,
      over an interface [Scalar] of the arithmetic they use, and read at two
      instances: exact rationals ([Qc]), where most general theorems are
      proved, and IEEE binary32 ([spec_float] at precision 24), the
      arithmetic of the source, where it can be run on concrete inputs with
      its roundings and where what [standardKnot] returns is proved in
      general. Theorems over [Qc] are statements about the algorithm in
      exact arithmetic; the sums of [standardKnot] and the counter of the
      sampling loop round in the source, so the order of the knots and the
      number of samples are not carried over from [Qc] to the source.
    - [int] is [Z]; signed overflow (undefined in C++) is out of scope.
    - [std::vector] is [list]; [v[i]] outside the vector is undefined
      behaviour and is the fault [OutOfBounds] here.
    - A float division never traps; with a zero divisor the source goes on
      with an infinity or a NaN, which exact arithmetic does not have. The
      division of the blending loop is therefore checked and a zero divisor is
      the fault [ZeroDivisor]; elsewhere [fdiv] is total and the theorems that
      read a quotient have a nonzero divisor.
    - The sampling loop of [efficientBSpline] runs on a float counter, so it
      takes fuel; running out is the fault [OutOfFuel]. *)

From Stdlib Require Import ZArith QArith Qcanon Qround Lia Lqa.
From Stdlib Require Import Floats.SpecFloat.
From stdpp Require Import base numbers list option decidable.

Local Open Scope Z_scope.

(** * Part I: the program *)

(** ** Faults and the result monad *)

Inductive fault := OutOfBounds | ZeroDivisor | OutOfFuel.

Inductive result (A : Type) :=
  | Ok (a : A)
  | Fault (e : fault).
Global Arguments Ok {A} a.
Global Arguments Fault {A} e.

Global Instance result_ret : MRet result := λ A a, Ok a.
Global Instance result_bind : MBind result := λ A B f r,
  match r with
  | Ok a => f a
  | Fault e => Fault e
  end.

Global Instance fault_eq_dec : EqDecision fault.
Proof. solve_decision. Defined.
Global Instance result_eq_dec `{EqDecision A} : EqDecision (result A).
Proof. solve_decision. Defined.

(** ** Vectors indexed by [int] *)

(** [v[i]] for reading. *)
Definition vget {A} (v : list A) (i : Z) : result A :=
  if decide (0 ≤ i) then
    match v !! Z.to_nat i with
    | Some a => Ok a
    | None => Fault OutOfBounds
    end
  else Fault OutOfBounds.

(** [v[i] = a]. *)
Definition vset {A} (v : list A) (i : Z) (a : A) : result (list A) :=
  if decide (0 ≤ i < Z.of_nat (length v)) then Ok (<[Z.to_nat i := a]> v)
  else Fault OutOfBounds.

(** [v.push_back(a)]. *)
Definition push_back {A} (v : list A) (a : A) : list A := v ++ [a].

(** A read for statements: the element, or [dflt] outside the vector. *)
Definition vread {A} (dflt : A) (v : list A) (i : Z) : A :=
  match vget v i with
  | Ok a => a
  | Fault _ => dflt
  end.

(** ** The arithmetic the program uses *)

Class Scalar (F : Type) := {
  of_int : Z → F;
  fadd : F → F → F;
  fsub : F → F → F;
  fmul : F → F → F;
  fdiv : F → F → F;
  feqb : F → F → bool;
  fltb : F → F → bool;
  fleb : F → F → bool;
}.

(** Exact rationals. *)
Definition Qceqb (x y : Qc) : bool :=
  match (x ?= y)%Qc with Eq => true | _ => false end.
Definition Qcltb (x y : Qc) : bool :=
  match (x ?= y)%Qc with Lt => true | _ => false end.
Definition Qcleb (x y : Qc) : bool :=
  match (x ?= y)%Qc with Gt => false | _ => true end.

Global Instance Qc_scalar : Scalar Qc := {|
  of_int := Qc_of_Z;
  fadd := Qcplus;
  fsub := Qcminus;
  fmul := Qcmult;
  fdiv := Qcdiv;
  feqb := Qceqb;
  fltb := Qcltb;
  fleb := Qcleb;
|}.

(** IEEE binary32, round to nearest even. *)
Module Binary32.

Definition prec : Z := 24.
Definition emax : Z := 128.
Definition float := spec_float.

Definition scalar : Scalar float := {|
  of_int := λ z, binary_normalize prec emax z 0 false;
  fadd := SFadd prec emax;
  fsub := SFsub prec emax;
  fmul := SFmul prec emax;
  fdiv := SFdiv prec emax;
  feqb := SFeqb;
  fltb := SFltb;
  fleb := SFleb;
|}.

End Binary32.

(** ** glm vectors *)

Record vec2 (F : Type) := Vec2 { x2 : F; y2 : F }.
Global Arguments Vec2 {F} _ _.
Global Arguments x2 {F} _.
Global Arguments y2 {F} _.

Record vec3 (F : Type) := Vec3 { x3 : F; y3 : F; z3 : F }.
Global Arguments Vec3 {F} _ _ _.
Global Arguments x3 {F} _.
Global Arguments y3 {F} _.
Global Arguments z3 {F} _.

Global Instance vec2_eq_dec `{EqDecision F} : EqDecision (vec2 F).
Proof. solve_decision. Defined.
Global Instance vec3_eq_dec `{EqDecision F} : EqDecision (vec3 F).
Proof. solve_decision. Defined.

(** The output of the curve evaluation: sampled points and their colours. *)
Record CPU_Geometry (F : Type) := Geometry {
  verts : list (vec3 F);
  cols : list (vec3 F);
}.
Global Arguments Geometry {F} _ _.
Global Arguments verts {F} _.
Global Arguments cols {F} _.

Global Instance CPU_Geometry_eq_dec `{EqDecision F} : EqDecision (CPU_Geometry F).
Proof. solve_decision. Defined.

Section Program.
Context {F : Type} `{Scalar F}.

(** *** Operators of glm *)

Definition v2add (a b : vec2 F) : vec2 F :=
  Vec2 (fadd (x2 a) (x2 b)) (fadd (y2 a) (y2 b)).
Definition v2sub (a b : vec2 F) : vec2 F :=
  Vec2 (fsub (x2 a) (x2 b)) (fsub (y2 a) (y2 b)).
Definition v2mul (a b : vec2 F) : vec2 F :=
  Vec2 (fmul (x2 a) (x2 b)) (fmul (y2 a) (y2 b)).
Definition v2div (a b : vec2 F) : vec2 F :=
  Vec2 (fdiv (x2 a) (x2 b)) (fdiv (y2 a) (y2 b)).
Definition v2scale (c : F) (a : vec2 F) : vec2 F :=
  Vec2 (fmul c (x2 a)) (fmul c (y2 a)).

Definition v3add (a b : vec3 F) : vec3 F :=
  Vec3 (fadd (x3 a) (x3 b)) (fadd (y3 a) (y3 b)) (fadd (z3 a) (z3 b)).
Definition v3scale (c : F) (a : vec3 F) : vec3 F :=
  Vec3 (fmul c (x3 a)) (fmul c (y3 a)) (fmul c (z3 a)).

(** The float literals of the source. *)
Definition f0 : F := of_int 0.
Definition f1 : F := of_int 1.
Definition f2 : F := of_int 2.
Definition f0_5 : F := fdiv (of_int 1) (of_int 2).
Definition f0_75 : F := fdiv (of_int 3) (of_int 4).
Definition f0_2 : F := fdiv (of_int 1) (of_int 5).

(** *** MyCallbacks: the fields the conversions read

    The cursor position is a [double] that [glm::vec2] narrows to [float];
    the model keeps one scalar type. *)

Record MyCallbacks := {
  screenWidth : Z;
  screenHeight : Z;
  screenMouseX : F;
  screenMouseY : F;
}.

Definition windowSizeCallback (cb : MyCallbacks) (width height : Z) : MyCallbacks :=
  {| screenWidth := width; screenHeight := height;
     screenMouseX := screenMouseX cb; screenMouseY := screenMouseY cb |}.

Definition cursorPosCallback (cb : MyCallbacks) (xpos ypos : F) : MyCallbacks :=
  {| screenWidth := screenWidth cb; screenHeight := screenHeight cb;
     screenMouseX := xpos; screenMouseY := ypos |}.

Definition getCursorPosGL (cb : MyCallbacks) : vec2 F :=
  let screenPos := Vec2 (screenMouseX cb) (screenMouseY cb) in
  let centredPos := v2add screenPos (Vec2 f0_5 f0_5) in
  let scaledToZeroOne :=
    v2div centredPos (Vec2 (of_int (screenWidth cb)) (of_int (screenHeight cb))) in
  let flippedY := Vec2 (x2 scaledToZeroOne) (fsub f1 (y2 scaledToZeroOne)) in
  v2sub (v2scale f2 flippedY) (Vec2 f1 f1).

Definition glPosToScreenCoords (cb : MyCallbacks) (glPos : vec2 F) : vec2 F :=
  let scaledZeroOne := v2scale f0_5 (v2add glPos (Vec2 f1 f1)) in
  let flippedY := Vec2 (x2 scaledZeroOne) (fsub f1 (y2 scaledZeroOne)) in
  let screenPos :=
    v2mul flippedY (Vec2 (of_int (screenWidth cb)) (of_int (screenHeight cb))) in
  screenPos.

(** A point of GL space sent to the screen, the cursor put there, and the
    cursor read back in GL space. *)
Definition gl_screen_gl (cb : MyCallbacks) (glPos : vec2 F) : vec2 F :=
  let screenPos := glPosToScreenCoords cb glPos in
  getCursorPosGL (cursorPosCallback cb (x2 screenPos) (y2 screenPos)).

(** *** delta: the span search *)

(** The loop [for (i; i < m + k - 1; i++)] with [n] iterations left. The
    second comparison is evaluated only when the first holds. *)
Fixpoint delta_loop (U : list F) (u : F) (n : nat) (i : Z) : result Z :=
  match n with
  | O => Ok (-1)
  | S n' =>
      Ui ← vget U i;
      if fleb Ui u then
        Ui1 ← vget U (i + 1);
        if fltb u Ui1 then Ok i else delta_loop U u n' (i + 1)
      else delta_loop U u n' (i + 1)
  end.

Definition delta (U : list F) (u : F) (k m : Z) : result Z :=
  delta_loop U u (Z.to_nat (m + k - 1)) 0.

(** *** standardKnot *)

(** The parameters [k] and [m] are declared [float] and receive integers
    (the degree and the point count less one), which the conversion keeps
    exact below 2^24. The model takes the integers: the number of iterations
    is [m + k + 1], and the comparisons of the body and the spacing are
    computed on the converted values, as in the source. With [m = k - 2] the
    spacing is a division by zero, an infinity that the source never reads. *)
Fixpoint standardKnot_loop (k m : Z) (spacing : F) (n : nat) (i : Z)
    (U : list F) : result (list F) :=
  match n with
  | O => Ok U
  | S n' =>
      if fltb (of_int i) (of_int k) then
        standardKnot_loop k m spacing n' (i + 1) (push_back U f0)
      else if fleb (of_int k) (of_int i)
              && fltb (of_int i) (fadd (of_int m) (of_int 1)) then
        prev ← vget U (i - 1);
        standardKnot_loop k m spacing n' (i + 1) (push_back U (fadd prev spacing))
      else
        standardKnot_loop k m spacing n' (i + 1) (push_back U f1)
  end.

Definition standardKnot (k m : Z) : result (list F) :=
  let spacing := fdiv (of_int 1) (fadd (fsub (of_int m) (of_int k)) (of_int 2)) in
  standardKnot_loop k m spacing (Z.to_nat (m + k + 1)) 0 [].

(** *** efficientBSpline *)

(** [for (i = 0; i < k - 1; i++) C.push_back(E[d - i])]. *)
Fixpoint seed_loop (E : list (vec3 F)) (d : Z) (n : nat) (i : Z)
    (C : list (vec3 F)) : result (list (vec3 F)) :=
  match n with
  | O => Ok C
  | S n' =>
      p ← vget E (d - i);
      seed_loop E d n' (i + 1) (push_back C p)
  end.

(** The division of the blend, with its divisor checked. The source
    divides without a check and goes on with an infinity or a NaN in the
    vertex; here a zero divisor ends the run with [ZeroDivisor], so a
    theorem about a run that returns says nothing of those runs. *)
Definition checked_div (a b : F) : result F :=
  if feqb b f0 then Fault ZeroDivisor else Ok (fdiv a b).

(** [for (s; s < r - 2; s++)], on the state [(C, i)]. *)
Fixpoint blend_inner (U : list F) (u : F) (r : Z) (n : nat) (s i : Z)
    (C : list (vec3 F)) : result (list (vec3 F) * Z) :=
  match n with
  | O => Ok (C, i)
  | S n' =>
      Ui ← vget U i;
      Uir ← vget U (i + r - 1);
      omega ← checked_div (fsub u Ui) (fsub Uir Ui);
      Cs ← vget C s;
      Cs1 ← vget C (s + 1);
      C' ← vset C s (v3add (v3scale omega Cs) (v3scale (fsub f1 omega) Cs1));
      blend_inner U u r n' (s + 1) (i - 1) C'
  end.

(** [for (r; r > 2; r--)]; each round restarts [i] at [d]. *)
Fixpoint blend_outer (U : list F) (u : F) (d : Z) (n : nat) (r : Z)
    (C : list (vec3 F)) : result (list (vec3 F)) :=
  match n with
  | O => Ok C
  | S n' =>
      '(C', _) ← blend_inner U u r (Z.to_nat (r - 2)) 0 d C;
      blend_outer U u d n' (r - 1) C'
  end.

(** The body of the sampling loop up to the point it saves. *)
Definition curve_point (E : list (vec3 F)) (U : list F) (k m : Z) (u : F)
    : result (vec3 F) :=
  d ← delta U u k m;
  C ← seed_loop E d (Z.to_nat (k - 1)) 0 [];
  C' ← blend_outer U u d (Z.to_nat (k - 2)) k C;
  vget C' 0.

Definition curve_colour : vec3 F := Vec3 f1 f0_75 f0_2.

(** [for (u; u < U[m + 1]; u += u_inc)]. *)
Fixpoint sample_loop (E : list (vec3 F)) (U : list F) (k m : Z) (u_inc : F)
    (fuel : nat) (u : F) (cpuGeom : CPU_Geometry F) : result (CPU_Geometry F) :=
  match fuel with
  | O => Fault OutOfFuel
  | S fuel' =>
      hi ← vget U (m + 1);
      if fltb u hi then
        p ← curve_point E U k m u;
        sample_loop E U k m u_inc fuel' (fadd u u_inc)
          (Geometry (push_back (verts cpuGeom) p)
                    (push_back (cols cpuGeom) curve_colour))
      else Ok cpuGeom
  end.

Definition efficientBSpline (fuel : nat) (E : list (vec3 F)) (U : list F)
    (M : list Z) (k m : Z) (u_inc : F) : result (CPU_Geometry F) :=
  u0 ← vget U (k - 1);
  sample_loop E U k m u_inc fuel u0 (Geometry [] []).

End Program.

(** * Part II: the notions the properties are stated with *)

Section Notions.
Context {F : Type} `{Scalar F}.

(** [in_span U u i]: both knots exist and [U[i] <= u < U[i+1]], with the
    comparisons of the source. *)
Definition in_span (U : list F) (u : F) (i : Z) : bool :=
  match vget U i, vget U (i + 1) with
  | Ok a, Ok b => fleb a u && fltb u b
  | _, _ => false
  end.

Definition origin : vec3 F := Vec3 f0 f0 f0.

(** *** The blending as the specification describes it (section 4.3)

    The working list is seeded with [E[d], E[d-1], ..., E[d-(k-2)]]; then for
    [r] from [k] down to 3 and [s] from 0 to [r-3], with [i = d - s],
    [C[s]] becomes [omega*C[s] + (1-omega)*C[s+1]] where
    [omega = (u - U[i]) / (U[i+r-1] - U[i])]; the point is [C[0]]. *)

Definition seeded (E : list (vec3 F)) (d k : Z) : list (vec3 F) :=
  (λ j, vread origin E (d - j)) <$> seqZ 0 (k - 1).

Definition omega_at (U : list F) (u : F) (i r : Z) : F :=
  fdiv (fsub u (vread f0 U i)) (fsub (vread f0 U (i + r - 1)) (vread f0 U i)).

Definition blend_at (U : list F) (u : F) (d r : Z) (C : list (vec3 F)) (s : Z)
    : list (vec3 F) :=
  let omega := omega_at U u (d - s) r in
  <[Z.to_nat s := v3add (v3scale omega (vread origin C s))
                        (v3scale (fsub f1 omega) (vread origin C (s + 1)))]> C.

Definition blend_round (U : list F) (u : F) (d : Z) (C : list (vec3 F)) (r : Z)
    : list (vec3 F) :=
  foldl (blend_at U u d r) C (seqZ 0 (r - 2)).

Definition blend_rounds (U : list F) (u : F) (d k : Z) (C : list (vec3 F))
    : list (vec3 F) :=
  foldl (blend_round U u d) C ((λ j, k - j) <$> seqZ 0 (k - 2)).

Definition blended_point (E : list (vec3 F)) (U : list F) (u : F) (d k : Z)
    : vec3 F :=
  vread origin (blend_rounds U u d k (seeded E d k)) 0.

(** The span index [delta] returns, for statements. *)
Definition span_index (U : list F) (u : F) (k m : Z) : Z :=
  match delta U u k m with
  | Ok d => d
  | Fault _ => -1
  end.

(** What one step of the blend needs: its two knots inside [U] and distinct,
    and [C[s]], [C[s+1]] inside a working list of [len] entries. *)
Definition blend_step_safe (U : list F) (d r s : Z) (len : nat) : Prop :=
  ∃ a b, vget U (d - s) = Ok a ∧ vget U (d - s + r - 1) = Ok b ∧
         feqb (fsub b a) f0 = false ∧ 0 ≤ s ∧ s + 1 < Z.of_nat len.

(** Everything one evaluation reads is there, and no divisor is zero. *)
Definition point_safe (E : list (vec3 F)) (U : list F) (d k : Z) : Prop :=
  2 ≤ k ∧
  (∀ j, 0 ≤ j < k - 1 → 0 ≤ d - j < Z.of_nat (length E)) ∧
  (∀ r s, 3 ≤ r ≤ k → 0 ≤ s ≤ r - 3 →
          blend_step_safe U d r s (Z.to_nat (k - 1))).

(** *** The standard de Boor algorithm

    For a B-spline of order [k] (degree [k-1]) with knots [U] and control
    points [E], and [u] in the span [d]: [d_j^0 = E[j]] and
    [d_j^r = a d_j^(r-1) + (1 - a) d_(j-1)^(r-1)] with
    [a = (u - U[j]) / (U[j+k-r] - U[j])]; the curve point is [d_d^(k-1)]. *)

Fixpoint deBoor_point (E : list (vec3 F)) (U : list F) (k : Z) (u : F)
    (r : nat) (j : Z) : vec3 F :=
  match r with
  | O => vread origin E j
  | S r' =>
      let a := fdiv (fsub u (vread f0 U j))
                    (fsub (vread f0 U (j + k - Z.of_nat r)) (vread f0 U j)) in
      v3add (v3scale a (deBoor_point E U k u r' j))
            (v3scale (fsub f1 a) (deBoor_point E U k u r' (j - 1)))
  end.

Definition deBoor (E : list (vec3 F)) (U : list F) (k m : Z) (u : F)
    : result (vec3 F) :=
  d ← delta U u k m;
  Ok (deBoor_point E U k u (Z.to_nat (k - 1)) d).

(** The working list inside de Boor's triangle. After [t] rounds its first
    [k-1-t] entries are the points of level [t], from [d] downwards. *)
Definition at_level (E : list (vec3 F)) (U : list F) (u : F) (d k : Z)
    (t : Z) (C : list (vec3 F)) : Prop :=
  length C = Z.to_nat (k - 1) ∧
  ∀ s, 0 ≤ s ≤ k - 2 - t →
       vread origin C s = deBoor_point E U k u (Z.to_nat t) (d - s).

(** Within the round from level [t] to [t+1]: done below [q], not yet from
    [q] on. *)
Definition mid_round (E : list (vec3 F)) (U : list F) (u : F) (d k : Z)
    (t q : Z) (C : list (vec3 F)) : Prop :=
  length C = Z.to_nat (k - 1) ∧
  (∀ s, 0 ≤ s < q →
        vread origin C s = deBoor_point E U k u (Z.to_nat (t + 1)) (d - s)) ∧
  (∀ s, q ≤ s ≤ k - 2 - t →
        vread origin C s = deBoor_point E U k u (Z.to_nat t) (d - s)).

(** *** standardKnot in any arithmetic *)

(** Whether the three tests of [standardKnot]'s loop, made on the converted
    counter ([i < k], [i >= k], [i < m + 1] with [k], [m] and [m + 1]
    floats), come out as on the integers, for every [i] the loop runs
    through. They do in exact arithmetic, and in float as long as the
    integers involved are held exactly. *)
Definition counter_tests_exact (k m : Z) : bool :=
  forallb (λ i,
    bool_decide (fltb (of_int i) (of_int k) = bool_decide (i < k))
    && bool_decide (fleb (of_int k) (of_int i) = bool_decide (k ≤ i))
    && bool_decide (fltb (of_int i) (fadd (of_int m) (of_int 1))
                    = bool_decide (i < m + 1)))
    (seqZ 0 (m + k + 1)).



(** The point at parameter [u] of the segment from [a] to [b]. *)
Definition segment_point (a b : vec3 F) (u : F) : vec3 F :=
  v3add (v3scale (fsub f1 u) a) (v3scale u b).

End Notions.

(** *** Exact arithmetic: knots in closed form and the sampled parameters *)

Local Open Scope Qc_scope.

(** The knot at index [i]: what [standardKnot k m] stores there. *)
Definition knot_value (k m i : Z) : Qc :=
  if decide (i < k)%Z then 0
  else if decide (i < m + 1)%Z then Qc_of_Z (i - k + 1) / Qc_of_Z (m - k + 2)
  else 1.

Definition knot_spacing (k m : Z) : Qc := 1 / Qc_of_Z (m - k + 2).

Definition standard_knots (k m : Z) : list Qc :=
  knot_value k m <$> seqZ 0 (m + k + 1).

(** The number of parameters [lo, lo + u_inc, ...] below [hi]. *)
Definition sample_count (lo hi u_inc : Qc) : nat :=
  Z.to_nat (Qceiling (this ((hi - lo) / u_inc)%Qc)).

(** The first [n] parameters the sampling loop visits from [lo]. *)
Definition sample_params (lo u_inc : Qc) (n : nat) : list Qc :=
  (λ j, lo + Qc_of_Z j * u_inc) <$> seqZ 0 (Z.of_nat n).

Local Close Scope Qc_scope.

(** *** Sample inputs *)

Definition pt3 (x y z : Z) : vec3 Qc := Vec3 (Qc_of_Z x) (Qc_of_Z y) (Qc_of_Z z).

(** Two control points, and three that are not collinear. *)
Definition two_points : list (vec3 Qc) := [pt3 0 0 0; pt3 1 0 0].
Definition three_points : list (vec3 Qc) := [pt3 0 0 0; pt3 1 0 0; pt3 1 1 0].

(** [standardKnot 2 1] and [standardKnot 3 2]. *)
Definition knots_2_1 : list Qc := [Qc_of_Z 0; Qc_of_Z 0; Qc_of_Z 1; Qc_of_Z 1].
Definition knots_3_2 : list Qc :=
  [Qc_of_Z 0; Qc_of_Z 0; Qc_of_Z 0; Qc_of_Z 1; Qc_of_Z 1; Qc_of_Z 1].

(** A knot vector of the right length for [k = 2], [m = 1] whose last span
    is not empty. *)
Definition knots_open_end : list Qc := [Qc_of_Z 0; Qc_of_Z 0; Qc_of_Z 1; Qc_of_Z 2].

Definition half : Qc := (1 / Qc_of_Z 2)%Qc.

(** An 800 by 800 window, the size [main] opens; exact and binary32. *)
Definition window_800 : MyCallbacks (F := Qc) :=
  {| screenWidth := 800; screenHeight := 800;
     screenMouseX := Qc_of_Z (-1); screenMouseY := Qc_of_Z (-1) |}.

Definition b32 (z : Z) : Binary32.float := of_int (Scalar := Binary32.scalar) z.

Definition b32_pt3 (x y z : Z) : vec3 Binary32.float := Vec3 (b32 x) (b32 y) (b32 z).

Definition b32_window_800 : MyCallbacks (F := Binary32.float) :=
  {| screenWidth := 800; screenHeight := 800;
     screenMouseX := b32 (-1); screenMouseY := b32 (-1) |}.

(** * Part II, continued: the callbacks, the hit test and the frame of main

    The rest of main.cpp, as far as it is data: the mouse and frame flags of
    [MyCallbacks], [indexOfPointAtCursorPos], and one iteration of the render
    loop of [main] on the editor's variables. What the libraries do is an
    input of the model: the callback calls that [glfwPollEvents] makes, what
    the ImGui widgets leave in their variables, whether ImGui wants the
    mouse. [GPU_Geometry] is the pair of vectors last uploaded to it.
    Drawing, shaders and [keyCallback] (which only recompiles the shader)
    have no data in the model. *)

(** ** Mouse buttons and actions of GLFW, as far as the source tells them
    apart *)

Inductive mouse_button :=
  | GLFW_MOUSE_BUTTON_LEFT
  | GLFW_MOUSE_BUTTON_RIGHT
  | GLFW_MOUSE_BUTTON_OTHER.

Inductive button_action := GLFW_PRESS | GLFW_RELEASE | GLFW_REPEAT.

Global Instance mouse_button_eq_dec : EqDecision mouse_button.
Proof. solve_decision. Defined.
Global Instance button_action_eq_dec : EqDecision button_action.
Proof. solve_decision. Defined.

(** ** MyCallbacks: the frame counter and the mouse flags

    These are the fields of the class beside the four that [MyCallbacks]
    above holds. *)

Record MouseState := {
  currentFrame : Z;
  leftMouseActiveVal : bool;
  lastLeftPressedFrame : Z;
  lastRightPressedFrame : Z;
}.

(** The values the constructor gives. *)
Definition constructedMouseState : MouseState :=
  {| currentFrame := 0; leftMouseActiveVal := false;
     lastLeftPressedFrame := -1; lastRightPressedFrame := -1 |}.

(** [wantCaptureMouse] is [ImGui::GetIO().WantCaptureMouse] at the call. *)
Definition mouseButtonCallback (ms : MouseState) (button : mouse_button)
    (action : button_action) (mods : Z) (wantCaptureMouse : bool) : MouseState :=
  if wantCaptureMouse && bool_decide (action = GLFW_PRESS) then ms
  else
    let ms1 :=
      if bool_decide (button = GLFW_MOUSE_BUTTON_LEFT)
         && bool_decide (action = GLFW_PRESS)
      then {| currentFrame := currentFrame ms; leftMouseActiveVal := true;
              lastLeftPressedFrame := currentFrame ms;
              lastRightPressedFrame := lastRightPressedFrame ms |}
      else ms in
    let ms2 :=
      if bool_decide (button = GLFW_MOUSE_BUTTON_RIGHT)
         && bool_decide (action = GLFW_PRESS)
      then {| currentFrame := currentFrame ms1;
              leftMouseActiveVal := leftMouseActiveVal ms1;
              lastLeftPressedFrame := lastLeftPressedFrame ms1;
              lastRightPressedFrame := currentFrame ms1 |}
      else ms1 in
    if bool_decide (button = GLFW_MOUSE_BUTTON_LEFT)
       && bool_decide (action = GLFW_RELEASE)
    then {| currentFrame := currentFrame ms2; leftMouseActiveVal := false;
            lastLeftPressedFrame := lastLeftPressedFrame ms2;
            lastRightPressedFrame := lastRightPressedFrame ms2 |}
    else ms2.

Definition leftMouseJustPressed (ms : MouseState) : bool :=
  bool_decide (lastLeftPressedFrame ms = currentFrame ms).

Definition leftMouseActive (ms : MouseState) : bool := leftMouseActiveVal ms.

Definition rightMouseJustPressed (ms : MouseState) : bool :=
  bool_decide (lastRightPressedFrame ms = currentFrame ms).

Definition incrementFrameCount (ms : MouseState) : MouseState :=
  {| currentFrame := currentFrame ms + 1;
     leftMouseActiveVal := leftMouseActiveVal ms;
     lastLeftPressedFrame := lastLeftPressedFrame ms;
     lastRightPressedFrame := lastRightPressedFrame ms |}.

(** [glm::length(v) < t], the one place where the source takes a square
    root. *)
Class Length (F : Type) := length_below : vec3 F → F → bool.

(** In exact arithmetic the square root is not rational; the comparison is
    decided on the squares: [sqrt(x^2+y^2+z^2) < t] iff [0 < t] and
    [x^2+y^2+z^2 < t^2]. *)
Global Instance Qc_length : Length Qc := λ v t,
  Qcltb 0 t
  && Qcltb (x3 v * x3 v + y3 v * y3 v + z3 v * z3 v)%Qc (t * t)%Qc.

(** In binary32 it is computed as glm does: the rounded square root of the
    rounded dot product. *)
Definition b32_length : Length Binary32.float := λ v t,
  SFltb
    (SFsqrt Binary32.prec Binary32.emax
       (SFadd Binary32.prec Binary32.emax
          (SFadd Binary32.prec Binary32.emax
             (SFmul Binary32.prec Binary32.emax (x3 v) (x3 v))
             (SFmul Binary32.prec Binary32.emax (y3 v) (y3 v)))
          (SFmul Binary32.prec Binary32.emax (z3 v) (z3 v))))
    t.

(** [v.erase(v.begin() + i)]; outside the vector it is undefined. *)
Definition verase {A} (v : list A) (i : Z) : result (list A) :=
  if decide (0 ≤ i < Z.of_nat (length v)) then Ok (delete (Z.to_nat i) v)
  else Fault OutOfBounds.

(** What was last uploaded with [setVerts] and [setCols]. *)
Record GPU_Geometry (F : Type) := Uploaded {
  gpu_verts : list (vec3 F);
  gpu_cols : list (vec3 F);
}.
Global Arguments Uploaded {F} _ _.
Global Arguments gpu_verts {F} _.
Global Arguments gpu_cols {F} _.

(** The calls [glfwPollEvents] makes on the callbacks object. *)
Inductive callback_call (F : Type) :=
  | MouseButtonCall (button : mouse_button) (action : button_action) (mods : Z)
      (wantCaptureMouse : bool)
  | WindowSizeCall (width height : Z)
  | CursorPosCall (xpos ypos : F).
Global Arguments MouseButtonCall {F} _ _ _ _.
Global Arguments WindowSizeCall {F} _ _.
Global Arguments CursorPosCall {F} _ _.

(** What the widgets of one frame leave in their variables, and whether the
    Clear button reports a click. *)
Record ImGuiFrame (F : Type) := {
  slider_k : Z;
  slider_u_increment : F;
  checkbox_drawPoints : bool;
  checkbox_drawCurve : bool;
  button_Clear : bool;
}.
Global Arguments slider_k {F} _.
Global Arguments slider_u_increment {F} _.
Global Arguments checkbox_drawPoints {F} _.
Global Arguments checkbox_drawCurve {F} _.
Global Arguments button_Clear {F} _.

(** The variables of [main] that live across frames; its [k] and [u_inc]
    are [degree_k] and [step_u_inc] here. *)
Record Editor (F : Type) := {
  cpuGeom : CPU_Geometry F;
  curve : CPU_Geometry F;
  gpuGeom : GPU_Geometry F;
  curveGPU : GPU_Geometry F;
  degree_k : Z;
  step_u_inc : F;
  drawPoints : bool;
  drawCurve : bool;
  selectedPointIndex : Z;
}.
Global Arguments cpuGeom {F} _.
Global Arguments curve {F} _.
Global Arguments gpuGeom {F} _.
Global Arguments curveGPU {F} _.
Global Arguments degree_k {F} _.
Global Arguments step_u_inc {F} _.
Global Arguments drawPoints {F} _.
Global Arguments drawCurve {F} _.
Global Arguments selectedPointIndex {F} _.

Section Editing.
Context {F : Type} `{Scalar F} `{Length F}.

Definition v3sub (a b : vec3 F) : vec3 F :=
  Vec3 (fsub (x3 a) (x3 b)) (fsub (y3 a) (y3 b)) (fsub (z3 a) (z3 b)).

(** [glm::vec3(v, z)] and the conversion of a [vec3] argument to [vec2]. *)
Definition vec3_of (v : vec2 F) (z : F) : vec3 F := Vec3 (x2 v) (y2 v) z.
Definition vec2_of (v : vec3 F) : vec2 F := Vec2 (x3 v) (y3 v).

(** The callbacks object: the four fields of [MyCallbacks] and the flags. *)
Definition callbacks : Type := MyCallbacks (F := F) * MouseState.

Definition dispatch (cb : callbacks) (c : callback_call F) : callbacks :=
  match c with
  | MouseButtonCall button action mods want =>
      (cb.1, mouseButtonCallback cb.2 button action mods want)
  | WindowSizeCall width height => (windowSizeCallback cb.1 width height, cb.2)
  | CursorPosCall xpos ypos => (cursorPosCallback cb.1 xpos ypos, cb.2)
  end.

Definition pollEvents (calls : list (callback_call F)) (cb : callbacks) : callbacks :=
  foldl dispatch cb calls.

(** *** indexOfPointAtCursorPos *)

(** The second loop: [for (i; i < screenCoordVerts.size(); i++)]. *)
Fixpoint hit_loop (screenCoordVerts : list (vec3 F)) (cursorPosScreen : vec3 F)
    (screenCoordThreshold : F) (n : nat) (i : Z) : result Z :=
  match n with
  | O => Ok (-1)
  | S n' =>
      p ← vget screenCoordVerts i;
      if length_below (v3sub p cursorPosScreen) screenCoordThreshold then Ok i
      else hit_loop screenCoordVerts cursorPosScreen screenCoordThreshold n' (i + 1)
  end.

(** The cursor is a [double] in the source: [screenMouseX + 0.5f] is added
    in [double] and then narrowed to [float], where the model adds in its
    one scalar type. In exact arithmetic the two are the same; in binary32
    they can differ in the last bit of the cursor's position, and with it a
    hit at the very edge of the threshold. *)
Definition indexOfPointAtCursorPos (cb : MyCallbacks)
    (glCoordsOfPointsToSearch : list (vec3 F)) (screenCoordThreshold : F)
    : result Z :=
  let screenCoordVerts :=
    (λ v, vec3_of (glPosToScreenCoords cb (vec2_of v)) f0)
      <$> glCoordsOfPointsToSearch in
  let cursorPosScreen :=
    Vec3 (fadd (screenMouseX cb) f0_5) (fadd (screenMouseY cb) f0_5) f0 in
  hit_loop screenCoordVerts cursorPosScreen screenCoordThreshold
    (length screenCoordVerts) 0.

(** Whether the hit test accepts the point [v]: its screen position is
    closer than the threshold to the centre of the cursor's pixel. *)
Definition point_hit (cb : MyCallbacks) (screenCoordThreshold : F)
    (v : vec3 F) : bool :=
  length_below
    (v3sub (vec3_of (glPosToScreenCoords cb (vec2_of v)) f0)
           (Vec3 (fadd (screenMouseX cb) f0_5) (fadd (screenMouseY cb) f0_5) f0))
    screenCoordThreshold.

(** *** One iteration of the render loop *)

Definition with_points (st : Editor F) (g : CPU_Geometry F)
    (gpu : GPU_Geometry F) (sel : Z) : Editor F :=
  {| cpuGeom := g; curve := curve st; gpuGeom := gpu; curveGPU := curveGPU st;
     degree_k := degree_k st; step_u_inc := step_u_inc st;
     drawPoints := drawPoints st; drawCurve := drawCurve st;
     selectedPointIndex := sel |}.

(** The colour of a control point, [(0, 1, 0)]. *)
Definition point_colour : vec3 F := Vec3 f0 f1 f0.

(** Lines 260 to 293: pick on a press, then add, erase or drag. *)
Definition edit_points (cb : callbacks) (st : Editor F) : result (Editor F) :=
  let ms := cb.2 in
  let g := cpuGeom st in
  sel ← (if leftMouseJustPressed ms || rightMouseJustPressed ms
         then indexOfPointAtCursorPos cb.1 (verts g) (of_int 6)
         else Ok (selectedPointIndex st));
  if leftMouseJustPressed ms then
    if bool_decide (sel < 0) then
      let vs := push_back (verts g) (vec3_of (getCursorPosGL cb.1) f0) in
      let cs := push_back (cols g) point_colour in
      Ok (with_points st (Geometry vs cs) (Uploaded vs cs) sel)
    else Ok (with_points st g (gpuGeom st) sel)
  else if rightMouseJustPressed ms then
    if bool_decide (0 ≤ sel) then
      vs ← verase (verts g) sel;
      cs ← verase (cols g) sel;
      Ok (with_points st (Geometry vs cs) (Uploaded vs cs) (-1))
    else Ok (with_points st g (gpuGeom st) sel)
  else if leftMouseActive ms && bool_decide (0 ≤ sel) then
    vs ← vset (verts g) sel (vec3_of (getCursorPosGL cb.1) f0);
    Ok (with_points st (Geometry vs (cols g))
          (Uploaded vs (gpu_cols (gpuGeom st))) sel)
  else Ok (with_points st g (gpuGeom st) sel).

(** Lines 303 to 321: the widgets, then the Clear button. *)
Definition widgets (ui : ImGuiFrame F) (st : Editor F) : Editor F :=
  let cleared := button_Clear ui in
  {| cpuGeom := if cleared then Geometry [] [] else cpuGeom st;
     curve := if cleared then Geometry [] [] else curve st;
     gpuGeom := if cleared then Uploaded [] [] else gpuGeom st;
     curveGPU := if cleared then Uploaded [] [] else curveGPU st;
     degree_k := slider_k ui;
     step_u_inc := slider_u_increment ui;
     drawPoints := checkbox_drawPoints ui;
     drawCurve := checkbox_drawCurve ui;
     selectedPointIndex := selectedPointIndex st |}.

(** Lines 326 to 337: the curve is computed anew when there are at least two
    control points, and left as it is otherwise. *)
Definition recompute_curve (fuel : nat) (st : Editor F) : result (Editor F) :=
  let E := verts (cpuGeom st) in
  if bool_decide (1 < length E)%nat then
    let m := Z.of_nat (length E) - 1 in
    U ← standardKnot (degree_k st) m;
    c ← efficientBSpline fuel E U [1] (degree_k st) m (step_u_inc st);
    Ok {| cpuGeom := cpuGeom st; curve := c; gpuGeom := gpuGeom st;
          curveGPU := Uploaded (verts c) (cols c);
          degree_k := degree_k st; step_u_inc := step_u_inc st;
          drawPoints := drawPoints st; drawCurve := drawCurve st;
          selectedPointIndex := selectedPointIndex st |}
  else Ok st.

(** One frame: the counter, the events, the edit, the widgets, the curve. *)
Definition frame (fuel : nat) (calls : list (callback_call F))
    (ui : ImGuiFrame F) (s : callbacks * Editor F)
    : result (callbacks * Editor F) :=
  let cb := pollEvents calls (s.1.1, incrementFrameCount s.1.2) in
  st1 ← edit_points cb s.2;
  st2 ← recompute_curve fuel (widgets ui st1);
  Ok (cb, st2).

(** Frames in a row; each has its own events and widget values. *)
Fixpoint frames (fuel : nat) (inputs : list (list (callback_call F) * ImGuiFrame F))
    (s : callbacks * Editor F) : result (callbacks * Editor F) :=
  match inputs with
  | [] => Ok s
  | (calls, ui) :: rest =>
      s' ← frame fuel calls ui s;
      frames fuel rest s'
  end.

(** The editor as [main] sets it up before the loop. *)
Definition initial_editor : Editor F :=
  {| cpuGeom := Geometry [] []; curve := Geometry [] [];
     gpuGeom := Uploaded [] []; curveGPU := Uploaded [] [];
     degree_k := 2; step_u_inc := f0_2;
     drawPoints := true; drawCurve := true;
     selectedPointIndex := -1 |}.

Definition initial_callbacks (screenWidth screenHeight : Z) : callbacks :=
  ({| screenWidth := screenWidth; screenHeight := screenHeight;
      screenMouseX := fsub f0 f1; screenMouseY := fsub f0 f1 |},
   constructedMouseState).

(** What the frame keeps true of the editor: vertices and colours in step,
    the uploads equal to the vectors, and a selection inside the vertices
    while the left button is down. *)
Definition editor_ok (cb : callbacks) (st : Editor F) : Prop :=
  length (verts (cpuGeom st)) = length (cols (cpuGeom st)) ∧
  length (verts (curve st)) = length (cols (curve st)) ∧
  gpuGeom st = Uploaded (verts (cpuGeom st)) (cols (cpuGeom st)) ∧
  curveGPU st = Uploaded (verts (curve st)) (cols (curve st)) ∧
  (leftMouseActiveVal cb.2 = true →
   selectedPointIndex st < Z.of_nat (length (verts (cpuGeom st)))).

(** The frame flags never run ahead of the frame counter. *)
Definition flags_ok (ms : MouseState) : Prop :=
  lastLeftPressedFrame ms ≤ currentFrame ms ∧
  lastRightPressedFrame ms ≤ currentFrame ms.

(** A left press that ImGui does not keep for itself. *)
Definition is_left_press (c : callback_call F) : bool :=
  match c with
  | MouseButtonCall GLFW_MOUSE_BUTTON_LEFT GLFW_PRESS _ false => true
  | _ => false
  end.

Definition is_right_press (c : callback_call F) : bool :=
  match c with
  | MouseButtonCall GLFW_MOUSE_BUTTON_RIGHT GLFW_PRESS _ false => true
  | _ => false
  end.

(** A call of [mouseButtonCallback], whatever the button and the action. *)
Definition is_mouse_button (c : callback_call F) : bool :=
  match c with
  | MouseButtonCall _ _ _ _ => true
  | _ => false
  end.

End Editing.

(** *** Inputs under which the frame is shown to run (exact arithmetic)

    The sliders leave [k >= 2] and [u_inc > 0], the fuel covers the samples,
    and Clear is not reported while the left button is held. *)
Definition frame_input_ok (fuel : nat) (cb : callbacks (F := Qc))
    (input : list (callback_call Qc) * ImGuiFrame Qc) : Prop :=
  let cb' := pollEvents input.1 (cb.1, incrementFrameCount cb.2) in
  2 ≤ slider_k input.2 ∧
  (0 < slider_u_increment input.2)%Qc ∧
  (sample_count 0 1 (slider_u_increment input.2) < fuel)%nat ∧
  (button_Clear input.2 = true → leftMouseActiveVal cb'.2 = false).

Fixpoint inputs_ok (fuel : nat) (cb : callbacks (F := Qc))
    (inputs : list (list (callback_call Qc) * ImGuiFrame Qc)) : Prop :=
  match inputs with
  | [] => True
  | input :: rest =>
      frame_input_ok fuel cb input ∧
      inputs_ok fuel (pollEvents input.1 (cb.1, incrementFrameCount cb.2)) rest
  end.

(** A session: a point placed, a second one placed, the second one picked
    with a new press and dragged, the button released, Clear. *)
Definition ui_default (clear : bool) : ImGuiFrame Qc :=
  {| slider_k := 2; slider_u_increment := (1 / Qc_of_Z 5)%Qc;
     checkbox_drawPoints := true; checkbox_drawCurve := true;
     button_Clear := clear |}.

Definition left_button (action : button_action) : callback_call Qc :=
  MouseButtonCall GLFW_MOUSE_BUTTON_LEFT action 0 false.

Definition session : list (list (callback_call Qc) * ImGuiFrame Qc) :=
  [ ([CursorPosCall (Qc_of_Z 100) (Qc_of_Z 100); left_button GLFW_PRESS], ui_default false);
    ([left_button GLFW_RELEASE; CursorPosCall (Qc_of_Z 300) (Qc_of_Z 200); left_button GLFW_PRESS],
     ui_default false);
    ([left_button GLFW_RELEASE; left_button GLFW_PRESS], ui_default false);
    ([CursorPosCall (Qc_of_Z 310) (Qc_of_Z 220)], ui_default false);
    ([left_button GLFW_RELEASE], ui_default false);
    ([], ui_default true) ].

(** The same with Clear reported while the second point is held. *)
Definition session_clear_while_held
    : list (list (callback_call Qc) * ImGuiFrame Qc) :=
  [ ([CursorPosCall (Qc_of_Z 100) (Qc_of_Z 100); left_button GLFW_PRESS], ui_default false);
    ([left_button GLFW_RELEASE; left_button GLFW_PRESS], ui_default true);
    ([], ui_default false) ].

(** The callbacks object in a frame in which a left, or a right, press has
    just arrived, in an 800 by 800 window with the cursor at (100, 100). *)
Definition pressed_callbacks (right : bool) : callbacks (F := Qc) :=
  ({| screenWidth := 800; screenHeight := 800;
      screenMouseX := Qc_of_Z 100; screenMouseY := Qc_of_Z 100 |},
   {| currentFrame := 1; leftMouseActiveVal := negb right;
      lastLeftPressedFrame := if right then -1 else 1;
      lastRightPressedFrame := if right then 1 else -1 |}).

(** The callbacks object one frame after a left press, the button still
    held and the cursor moved to (120, 140); an editor with one control
    point, selected; and the two after a frame in which Clear is reported. *)
Definition held_callbacks : callbacks (F := Qc) :=
  ({| screenWidth := 800; screenHeight := 800;
      screenMouseX := Qc_of_Z 120; screenMouseY := Qc_of_Z 140 |},
   {| currentFrame := 2; leftMouseActiveVal := true;
      lastLeftPressedFrame := 1; lastRightPressedFrame := -1 |}).

Definition one_point_selected : Editor Qc :=
  with_points initial_editor (Geometry [pt3 0 0 0] [point_colour])
    (Uploaded [pt3 0 0 0] [point_colour]) 0.

Definition held_after_Clear : callbacks (F := Qc) * Editor Qc :=
  ((held_callbacks.1, incrementFrameCount held_callbacks.2),
   widgets (ui_default true) one_point_selected).

(** The editor of [main] with the control points [E], all in the point
    colour and uploaded, and the selection [sel]. *)
Definition with_control_points (E : list (vec3 Qc)) (sel : Z) : Editor Qc :=
  with_points initial_editor
    (Geometry E (replicate (length E) point_colour))
    (Uploaded E (replicate (length E) point_colour)) sel.

(** Three control points, the second selected; and one control point where
    the cursor of [pressed_callbacks] is. *)
Definition three_points_editor : Editor Qc := with_control_points three_points 1.

Definition placed_at_cursor : Editor Qc :=
  with_control_points [vec3_of (getCursorPosGL (pressed_callbacks true).1) f0] (-1).

(** A control point moved by the vector [t]. *)
Definition translate {F : Type} `{Scalar F} (t p : vec3 F) : vec3 F := v3add p t.

(** * Part III: properties *)

(** ** The result monad *)

Lemma bind_Ok {A B} (a : A) (f : A → result B) : Ok a ≫= f = f a.
Proof. done. Qed.

(** ** Vector access *)

Lemma vget_Ok {A} (v : list A) (i : Z) (a : A) :
  vget v i = Ok a ↔ 0 ≤ i ∧ v !! Z.to_nat i = Some a.
Proof.
  unfold vget. case_decide as Hi.
  - destruct (v !! Z.to_nat i) as [b|]; split; intros Hx.
    + by injection Hx as ->.
    + by destruct Hx as [_ [= ->]].
    + done.
    + by destruct Hx.
  - split; [done | intros [? _]; lia].
Qed.

Lemma vget_in_range {A} (v : list A) (i : Z) :
  0 ≤ i < Z.of_nat (length v) → ∃ a, vget v i = Ok a.
Proof.
  intros Hi. destruct (lookup_lt_is_Some_2 v (Z.to_nat i)) as [a Ha]; [lia|].
  exists a. apply vget_Ok. split; [lia | done].
Qed.

Lemma vget_Ok_range {A} (v : list A) (i : Z) (a : A) :
  vget v i = Ok a → 0 ≤ i < Z.of_nat (length v).
Proof.
  intros [Hi Hl]%vget_Ok. apply lookup_lt_Some in Hl. lia.
Qed.

Lemma vget_vread {A} (dflt : A) (v : list A) (i : Z) :
  0 ≤ i < Z.of_nat (length v) → vget v i = Ok (vread dflt v i).
Proof.
  intros Hi. destruct (vget_in_range v i Hi) as [a Ha].
  unfold vread. by rewrite Ha.
Qed.

Lemma vread_Ok {A} (dflt : A) (v : list A) (i : Z) (a : A) :
  vget v i = Ok a → vread dflt v i = a.
Proof. intros Ha. unfold vread. by rewrite Ha. Qed.

Lemma vget_fmap_seqZ {A} (f : Z → A) (n i : Z) :
  0 ≤ i < n → vget (f <$> seqZ 0 n) i = Ok (f i).
Proof.
  intros Hi. apply vget_Ok. split; [lia|].
  rewrite list_lookup_fmap, lookup_seqZ_lt by lia.
  simpl. f_equal. f_equal. lia.
Qed.

Lemma vset_in_range {A} (v : list A) (i : Z) (a : A) :
  0 ≤ i < Z.of_nat (length v) → vset v i a = Ok (<[Z.to_nat i := a]> v).
Proof. intros Hi. unfold vset. by rewrite decide_True. Qed.

(** ** delta on any knot vector *)

Section Delta.
Context {F : Type} `{Scalar F}.

Lemma in_span_true (U : list F) (u : F) (i : Z) :
  in_span U u i = true ↔
  ∃ a b, vget U i = Ok a ∧ vget U (i + 1) = Ok b ∧
         fleb a u = true ∧ fltb u b = true.
Proof.
  unfold in_span. split.
  - destruct (vget U i) as [a|]; [|done].
    destruct (vget U (i + 1)) as [b|]; [|done].
    intros [??]%andb_true_iff. by exists a, b.
  - intros (a & b & -> & -> & -> & ->). done.
Qed.

(** What the loop returns when started at [i] with [n] iterations left and
    every index it can read inside [U]. *)
Lemma delta_loop_spec (U : list F) (u : F) (n : nat) (i : Z) :
  0 ≤ i → i + Z.of_nat n < Z.of_nat (length U) ∨ n = 0%nat →
  ∃ j, delta_loop U u n i = Ok j ∧
       ((i ≤ j < i + Z.of_nat n ∧ in_span U u j = true ∧
         ∀ l, i ≤ l < j → in_span U u l = false)
        ∨ (j = -1 ∧ ∀ l, i ≤ l < i + Z.of_nat n → in_span U u l = false)).
Proof.
  revert i. induction n as [|n IH]; intros i Hi Hlen.
  - exists (-1). split; [done|]. right. split; [done|]. intros l ?. lia.
  - destruct (vget_in_range U i) as [a Ha]; [lia|].
    destruct (vget_in_range U (i + 1)) as [b Hb]; [lia|].
    assert (Hspan : in_span U u i = fleb a u && fltb u b)
      by (unfold in_span; by rewrite Ha, Hb).
    destruct (IH (i + 1)) as (j & Hj & Hcases); [lia | lia |].
    assert (Hrest : in_span U u i = false →
      ∃ j, delta_loop U u n (i + 1) = Ok j ∧
        ((i ≤ j < i + Z.of_nat (S n) ∧ in_span U u j = true ∧
          ∀ l, i ≤ l < j → in_span U u l = false)
         ∨ (j = -1 ∧ ∀ l, i ≤ l < i + Z.of_nat (S n) → in_span U u l = false))).
    { intros Hno. exists j. split; [done|].
      destruct Hcases as [(Hr & Hin & Hbefore) | (-> & Hnone)].
      - left. split; [lia|]. split; [done|]. intros l Hl.
        destruct (decide (l = i)) as [->|]; [done|]. apply Hbefore. lia.
      - right. split; [done|]. intros l Hl.
        destruct (decide (l = i)) as [->|]; [done|]. apply Hnone. lia. }
    simpl. rewrite Ha. simpl. destruct (fleb a u) eqn:Hle.
    + rewrite Hb. simpl. destruct (fltb u b) eqn:Hlt.
      * exists i. split; [done|]. left. split; [lia|].
        split; [by rewrite Hspan|]. intros l ?. lia.
      * apply Hrest. by rewrite Hspan.
    + apply Hrest. by rewrite Hspan.
Qed.

End Delta.

(** ** Exact arithmetic *)

Local Open Scope Qc_scope.

Lemma Qcltb_lt (x y : Qc) : Qcltb x y = true ↔ x < y.
Proof. unfold Qcltb. rewrite Qclt_alt. destruct (x ?= y); naive_solver. Qed.

Lemma Qcleb_le (x y : Qc) : Qcleb x y = true ↔ x ≤ y.
Proof. unfold Qcleb. rewrite Qcle_alt. destruct (x ?= y); naive_solver. Qed.

Lemma Qceqb_eq (x y : Qc) : Qceqb x y = true ↔ x = y.
Proof. unfold Qceqb. rewrite Qceq_alt. destruct (x ?= y); naive_solver. Qed.

Lemma Qcltb_ge (x y : Qc) : Qcltb x y = false ↔ y ≤ x.
Proof.
  rewrite <-not_true_iff_false, Qcltb_lt. split.
  - apply Qcnot_lt_le.
  - apply Qcle_not_lt.
Qed.

Lemma Qcleb_gt (x y : Qc) : Qcleb x y = false ↔ y < x.
Proof.
  rewrite <-not_true_iff_false, Qcleb_le. split.
  - apply Qcnot_le_lt.
  - apply Qclt_not_le.
Qed.

Lemma Qcltb_of_Z (a b : Z) :
  Qcltb (Qc_of_Z a) (Qc_of_Z b) = bool_decide (a < b)%Z.
Proof.
  case_bool_decide as Hab.
  - apply Qcltb_lt. by rewrite <-Z2Qc_inj_lt.
  - apply Qcltb_ge. rewrite <-Z2Qc_inj_le. lia.
Qed.

Lemma Qcleb_of_Z (a b : Z) :
  Qcleb (Qc_of_Z a) (Qc_of_Z b) = bool_decide (a ≤ b)%Z.
Proof.
  case_bool_decide as Hab.
  - apply Qcleb_le. by rewrite <-Z2Qc_inj_le.
  - apply Qcleb_gt. rewrite <-Z2Qc_inj_lt. lia.
Qed.

Lemma Qc_of_Z_pos (n : Z) : (0 < n)%Z → 0 < Qc_of_Z n.
Proof. intros. by rewrite <-Z2Qc_inj_0, <-Z2Qc_inj_lt. Qed.

Lemma Qc_of_Z_nonzero (n : Z) : (0 < n)%Z → Qc_of_Z n ≠ 0.
Proof. intros Hn Heq. rewrite <-Z2Qc_inj_0 in Heq. apply Z2Qc_inj in Heq. lia. Qed.

Lemma Qcdiv_le_mono (a b c : Qc) : 0 < c → a ≤ b → a / c ≤ b / c.
Proof.
  intros Hc Hab. unfold Qcdiv. apply Qcmult_le_mono_nonneg_r; [|done].
  by apply Qclt_le_weak, Qcinv_pos.
Qed.

Lemma Qcdiv_same (c : Qc) : c ≠ 0 → c / c = 1.
Proof. intros. by field. Qed.

(** Rewrites the operations of [Qc_scalar] into those of [Qc]. *)
Ltac qc_ops :=
  change (@of_int Qc Qc_scalar) with Qc_of_Z in *;
  change (@fadd Qc Qc_scalar) with Qcplus in *;
  change (@fsub Qc Qc_scalar) with Qcminus in *;
  change (@fmul Qc Qc_scalar) with Qcmult in *;
  change (@fdiv Qc Qc_scalar) with Qcdiv in *;
  change (@feqb Qc Qc_scalar) with Qceqb in *;
  change (@fltb Qc Qc_scalar) with Qcltb in *;
  change (@fleb Qc Qc_scalar) with Qcleb in *;
  change (@f0 Qc Qc_scalar) with (Qc_of_Z 0) in *;
  change (@f1 Qc Qc_scalar) with (Qc_of_Z 1) in *;
  change (@f2 Qc Qc_scalar) with (Qc_of_Z 2) in *.

(** ** standardKnot in closed form *)

Lemma knot_value_low (k m i : Z) : (i < k)%Z → knot_value k m i = 0.
Proof. intros. unfold knot_value. by rewrite decide_True. Qed.

Lemma knot_value_mid (k m i : Z) :
  (k ≤ i < m + 1)%Z →
  knot_value k m i = Qc_of_Z (i - k + 1) / Qc_of_Z (m - k + 2).
Proof.
  intros. unfold knot_value.
  destruct (decide (i < k)%Z); [lia|]. by rewrite decide_True by lia.
Qed.

Lemma knot_value_high (k m i : Z) :
  (k ≤ i)%Z → (m + 1 ≤ i)%Z → knot_value k m i = 1.
Proof.
  intros. unfold knot_value.
  destruct (decide (i < k)%Z); [lia|]. by rewrite decide_False by lia.
Qed.

Lemma knot_value_cases (k m i : Z) :
  (k - 1 ≤ m)%Z →
  (i < k)%Z ∨ (k ≤ i < m + 1)%Z ∨ (k ≤ i ∧ m + 1 ≤ i)%Z.
Proof. lia. Qed.

Lemma knot_value_step (k m i : Z) :
  (k ≤ i < m + 1)%Z →
  knot_value k m i = knot_value k m (i - 1) + knot_spacing k m.
Proof.
  intros Hi. unfold knot_spacing.
  assert (Hn : Qc_of_Z (m - k + 2) ≠ 0) by (apply Qc_of_Z_nonzero; lia).
  rewrite (knot_value_mid k m i) by done.
  destruct (decide (i - 1 < k)%Z) as [Hk|Hk].
  - rewrite knot_value_low by done.
    replace (i - k + 1)%Z with 1%Z by lia. rewrite Z2Qc_inj_1. by field.
  - rewrite knot_value_mid by lia.
    replace (i - k + 1)%Z with ((i - 1 - k + 1) + 1)%Z by lia.
    rewrite Z2Qc_inj_add, Z2Qc_inj_1. by field.
Qed.

Lemma standardKnot_loop_closed (k m : Z) (n : nat) (i : Z) :
  (1 ≤ k)%Z → (0 ≤ i)%Z →
  standardKnot_loop k m (knot_spacing k m) n i (knot_value k m <$> seqZ 0 i)
  = Ok (knot_value k m <$> seqZ 0 (i + Z.of_nat n)).
Proof.
  intros Hk. revert i. induction n as [|n IH]; intros i Hi.
  - simpl. do 3 f_equal. lia.
  - assert (Hpush : ∀ x, x = knot_value k m i →
      push_back (knot_value k m <$> seqZ 0 i) x = knot_value k m <$> seqZ 0 (i + 1)).
    { intros x ->. unfold push_back.
      rewrite (seqZ_app 0 i 1), fmap_app by lia. done. }
    replace (i + Z.of_nat (S n))%Z with (i + 1 + Z.of_nat n)%Z by lia.
    simpl. qc_ops.
    rewrite <-Z2Qc_inj_add, Qcltb_of_Z, Qcleb_of_Z, Qcltb_of_Z.
    case_bool_decide as H1.
    + rewrite Hpush; [apply IH; lia|].
      by rewrite knot_value_low, Z2Qc_inj_0 by lia.
    + case_bool_decide as H2; [case_bool_decide as H3|]; simpl.
      * rewrite vget_fmap_seqZ by lia. simpl.
        rewrite Hpush; [apply IH; lia|].
        symmetry. apply knot_value_step. lia.
      * rewrite Hpush; [apply IH; lia|].
        by rewrite knot_value_high, Z2Qc_inj_1 by lia.
      * lia.
Qed.

Lemma standardKnot_closed (k m : Z) :
  (1 ≤ k)%Z → (0 ≤ m + 1)%Z → standardKnot k m = Ok (standard_knots k m).
Proof.
  intros Hk Hm. unfold standardKnot, standard_knots. qc_ops.
  rewrite <-Z2Qc_inj_sub, <-Z2Qc_inj_add, Z2Qc_inj_1.
  fold (knot_spacing k m).
  change (@nil Qc) with (knot_value k m <$> seqZ 0 0).
  rewrite standardKnot_loop_closed by lia.
  do 3 f_equal. lia.
Qed.

Lemma knot_value_nonneg (k m i : Z) : (k - 1 ≤ m)%Z → 0 ≤ knot_value k m i.
Proof.
  intros Hm.
  assert (Hn : 0 < Qc_of_Z (m - k + 2)) by (apply Qc_of_Z_pos; lia).
  destruct (knot_value_cases k m i Hm) as [Hi|[Hi|[Hi Hi']]].
  - by rewrite knot_value_low.
  - rewrite knot_value_mid by done.
    replace 0 with (0 / Qc_of_Z (m - k + 2)) by (field; by apply Qc_of_Z_nonzero; lia).
    apply Qcdiv_le_mono; [done|].
    rewrite <-Z2Qc_inj_0, <-Z2Qc_inj_le. lia.
  - by rewrite knot_value_high.
Qed.

Lemma knot_value_le_1 (k m i : Z) : (k - 1 ≤ m)%Z → knot_value k m i ≤ 1.
Proof.
  intros Hm.
  assert (Hn : 0 < Qc_of_Z (m - k + 2)) by (apply Qc_of_Z_pos; lia).
  destruct (knot_value_cases k m i Hm) as [Hi|[Hi|[Hi Hi']]].
  - by rewrite knot_value_low.
  - rewrite knot_value_mid by done.
    rewrite <-(Qcdiv_same (Qc_of_Z (m - k + 2))) by (by apply Qc_of_Z_nonzero; lia).
    apply Qcdiv_le_mono; [done|].
    rewrite <-Z2Qc_inj_le. lia.
  - rewrite knot_value_high by done. apply Qcle_refl.
Qed.

Lemma knot_value_mono (k m i j : Z) :
  (k - 1 ≤ m)%Z → (i ≤ j)%Z → knot_value k m i ≤ knot_value k m j.
Proof.
  intros Hm Hij.
  destruct (decide (i < k)%Z) as [Hik|Hik].
  { rewrite (knot_value_low k m i) by done. by apply knot_value_nonneg. }
  destruct (decide (j < m + 1)%Z) as [Hjm|Hjm].
  - rewrite !knot_value_mid by lia.
    apply Qcdiv_le_mono; [apply Qc_of_Z_pos; lia|].
    rewrite <-Z2Qc_inj_le. lia.
  - rewrite (knot_value_high k m j) by lia. by apply knot_value_le_1.
Qed.

(** Only the spans [k-1 .. m] have positive width. *)
Lemma knot_value_strict (k m i : Z) :
  (k - 1 ≤ m)%Z →
  knot_value k m i < knot_value k m (i + 1) → (k - 1 ≤ i ≤ m)%Z.
Proof.
  intros Hm Hlt.
  destruct (decide (i + 1 < k)%Z) as [Hik|Hik].
  { rewrite !knot_value_low in Hlt by lia. by apply Qclt_not_eq in Hlt. }
  destruct (decide (m + 1 ≤ i)%Z) as [Him|Him]; [|lia].
  rewrite !knot_value_high in Hlt by lia. by apply Qclt_not_eq in Hlt.
Qed.

Lemma knot_value_first (k m : Z) : knot_value k m (k - 1) = 0.
Proof. apply knot_value_low. lia. Qed.

Lemma knot_value_last (k m : Z) : (k - 1 ≤ m)%Z → knot_value k m (m + 1) = 1.
Proof. intros. apply knot_value_high; lia. Qed.

(** A value between [f lo] and [f hi] lies in one of the steps between. *)
Lemma step_between (f : Z → Qc) (u : Qc) (n : nat) (lo : Z) :
  f lo ≤ u → u < f (lo + Z.of_nat (S n))%Z →
  ∃ i, (lo ≤ i ≤ lo + Z.of_nat n)%Z ∧ f i ≤ u ∧ u < f (i + 1)%Z.
Proof.
  revert lo. induction n as [|n IH]; intros lo Hlo Hhi.
  - exists lo. split; [lia|]. split; [done|].
    by replace (lo + 1)%Z with (lo + Z.of_nat 1)%Z by lia.
  - destruct (Qclt_le_dec u (f (lo + 1)%Z)) as [Hlt|Hge].
    + exists lo. split; [lia | done].
    + destruct (IH (lo + 1)%Z) as (i & Hi & Hspan); [done| |].
      * by replace (lo + 1 + Z.of_nat (S n))%Z with (lo + Z.of_nat (S (S n)))%Z by lia.
      * exists i. split; [lia | done].
Qed.

Lemma standard_length (k m : Z) :
  length (standard_knots k m) = Z.to_nat (m + k + 1).
Proof. unfold standard_knots. by rewrite length_fmap, length_seqZ. Qed.

Lemma standard_vget (k m i : Z) :
  (0 ≤ i < m + k + 1)%Z → vget (standard_knots k m) i = Ok (knot_value k m i).
Proof. intros. by apply vget_fmap_seqZ. Qed.

Lemma standard_in_span (k m : Z) (u : Qc) (i : Z) :
  in_span (standard_knots k m) u i = true ↔
  (0 ≤ i < m + k)%Z ∧ knot_value k m i ≤ u ∧ u < knot_value k m (i + 1).
Proof.
  rewrite in_span_true. qc_ops. split.
  - intros (a & b & Ha & Hb & Hle & Hlt).
    pose proof (vget_Ok_range _ _ _ Ha) as Hra.
    pose proof (vget_Ok_range _ _ _ Hb) as Hrb.
    rewrite standard_length in Hra, Hrb.
    rewrite standard_vget in Ha, Hb by lia.
    injection Ha as <-. injection Hb as <-.
    apply Qcleb_le in Hle. apply Qcltb_lt in Hlt. split; [lia | done].
  - intros (Hi & Hle & Hlt).
    exists (knot_value k m i), (knot_value k m (i + 1)).
    rewrite !standard_vget by lia.
    by rewrite Qcleb_le, Qcltb_lt.
Qed.

Lemma standard_span_range (k m : Z) (u : Qc) (i : Z) :
  (k - 1 ≤ m)%Z → in_span (standard_knots k m) u i = true → (k - 1 ≤ i ≤ m)%Z.
Proof.
  intros Hm (_ & Hle & Hlt)%standard_in_span.
  apply knot_value_strict; [done|]. by apply Qcle_lt_trans with u.
Qed.

Lemma standard_span_exists (k m : Z) (u : Qc) :
  (1 ≤ k)%Z → (k - 1 ≤ m)%Z → 0 ≤ u → u < 1 →
  ∃ i, (k - 1 ≤ i ≤ m)%Z ∧ in_span (standard_knots k m) u i = true.
Proof.
  intros Hk Hm H0 H1.
  destruct (step_between (knot_value k m) u (Z.to_nat (m - k + 1)) (k - 1))
    as (i & Hi & Hle & Hlt).
  - by rewrite knot_value_first.
  - replace (k - 1 + Z.of_nat (S (Z.to_nat (m - k + 1))))%Z with (m + 1)%Z by lia.
    by rewrite knot_value_last.
  - exists i. split; [lia|]. apply standard_in_span. split; [lia | done].
Qed.

Lemma standard_delta (k m : Z) (u : Qc) :
  (2 ≤ k)%Z → (k - 1 ≤ m)%Z → 0 ≤ u → u < 1 →
  ∃ d, delta (standard_knots k m) u k m = Ok d ∧ (k - 1 ≤ d ≤ m)%Z ∧
       in_span (standard_knots k m) u d = true.
Proof.
  intros Hk Hm H0 H1. unfold delta.
  destruct (delta_loop_spec (standard_knots k m) u (Z.to_nat (m + k - 1)) 0)
    as (j & Hj & Hcases); [lia | rewrite standard_length; lia |].
  exists j. split; [done|].
  destruct Hcases as [(_ & Hin & _) | (-> & Hnone)].
  - split; [by eapply standard_span_range | done].
  - destruct (standard_span_exists k m u) as (i & Hi & Hin); [lia|done..|].
    rewrite Hnone in Hin by lia. done.
Qed.

Local Close Scope Qc_scope.

(** ** The loops of efficientBSpline against their description *)

Lemma seqZ_of_to_nat (a n : Z) : seqZ a (Z.of_nat (Z.to_nat n)) = seqZ a n.
Proof. unfold seqZ. by rewrite Nat2Z.id. Qed.

Lemma seqZ_succ (a : Z) (n : nat) :
  seqZ a (Z.of_nat (S n)) = a :: seqZ (a + 1) (Z.of_nat n).
Proof. rewrite seqZ_cons by lia. do 2 f_equal; lia. Qed.

Lemma fmap_seqZ_succ {A} (f : Z → A) (a : Z) (n : nat) :
  f <$> seqZ a (Z.of_nat (S n)) = f a :: (f <$> seqZ (a + 1) (Z.of_nat n)).
Proof. by rewrite seqZ_succ. Qed.

Lemma fmap_seqZ_shift {A} (f : Z → A) (a n : Z) :
  f <$> seqZ (a + 1) n = (λ j, f (j + 1)) <$> seqZ a n.
Proof.
  replace (a + 1) with (1 + a) by lia.
  rewrite <-fmap_add_seqZ, <-list_fmap_compose.
  apply list_fmap_ext. intros _ j _. simpl. f_equal. lia.
Qed.

Section Blend.
Context {F : Type} `{Scalar F}.

Lemma seed_loop_spec (E : list (vec3 F)) (d : Z) (n : nat) (i : Z)
    (C : list (vec3 F)) :
  (∀ j, i ≤ j < i + Z.of_nat n → 0 ≤ d - j < Z.of_nat (length E)) →
  seed_loop E d n i C
  = Ok (C ++ ((λ j, vread origin E (d - j)) <$> seqZ i (Z.of_nat n))).
Proof.
  revert i C. induction n as [|n IH]; intros i C Hin.
  - simpl. by rewrite app_nil_r.
  - simpl. rewrite (vget_vread origin) by (apply Hin; lia). simpl.
    rewrite IH by (intros j ?; apply Hin; lia).
    unfold push_back. rewrite <-app_assoc. simpl.
    by rewrite fmap_seqZ_succ.
Qed.

Lemma blend_at_length (U : list F) (u : F) (d r : Z) (C : list (vec3 F)) (s : Z) :
  length (blend_at U u d r C s) = length C.
Proof. unfold blend_at. by rewrite length_insert. Qed.

Lemma blend_round_length (U : list F) (u : F) (d : Z) (C : list (vec3 F)) (r : Z) :
  length (blend_round U u d C r) = length C.
Proof.
  unfold blend_round. generalize (seqZ 0 (r - 2)). intros l. revert C.
  induction l as [|s l IH]; intros C; [done|].
  simpl. by rewrite IH, blend_at_length.
Qed.

Lemma blend_inner_spec (U : list F) (u : F) (d r : Z) (n : nat) (s : Z)
    (C : list (vec3 F)) :
  (∀ s', s ≤ s' < s + Z.of_nat n → blend_step_safe U d r s' (length C)) →
  blend_inner U u r n s (d - s) C
  = Ok (foldl (blend_at U u d r) C (seqZ s (Z.of_nat n)), d - s - Z.of_nat n).
Proof.
  revert s C. induction n as [|n IH]; intros s C Hsafe.
  - simpl. do 2 f_equal. lia.
  - destruct (Hsafe s) as (a & b & Ha & Hb & Hne & Hs0 & Hs1); [lia|].
    simpl. rewrite Ha. simpl. rewrite Hb. simpl.
    unfold checked_div. rewrite Hne. simpl.
    rewrite (vget_vread origin C s), (vget_vread origin C (s + 1)) by lia. simpl.
    rewrite vset_in_range by lia. simpl.
    replace (d - s - 1) with (d - (s + 1)) by lia.
    assert (Hstep : <[Z.to_nat s := v3add
        (v3scale (fdiv (fsub u a) (fsub b a)) (vread origin C s))
        (v3scale (fsub f1 (fdiv (fsub u a) (fsub b a))) (vread origin C (s + 1)))]> C
      = blend_at U u d r C s).
    { unfold blend_at, omega_at.
      by rewrite (vread_Ok f0 U (d - s) a), (vread_Ok f0 U (d - s + r - 1) b). }
    rewrite Hstep, IH.
    + rewrite seqZ_succ. simpl. do 2 f_equal. lia.
    + intros s' Hs'. rewrite blend_at_length. apply Hsafe. lia.
Qed.

Lemma blend_outer_spec (U : list F) (u : F) (d : Z) (n : nat) (r : Z)
    (C : list (vec3 F)) :
  (∀ r' s', r - Z.of_nat n < r' ≤ r → 0 ≤ s' < r' - 2 →
            blend_step_safe U d r' s' (length C)) →
  blend_outer U u d n r C
  = Ok (foldl (blend_round U u d) C ((λ j, r - j) <$> seqZ 0 (Z.of_nat n))).
Proof.
  revert r C. induction n as [|n IH]; intros r C Hsafe.
  - done.
  - simpl. replace d with (d - 0) at 1 by lia.
    rewrite blend_inner_spec by (intros s' ?; apply Hsafe; lia).
    simpl. rewrite seqZ_of_to_nat. fold (blend_round U u d C r).
    rewrite IH.
    + rewrite fmap_seqZ_succ, fmap_seqZ_shift. simpl.
      do 2 f_equal; [f_equal; lia|].
      apply list_fmap_ext. intros _ j _. lia.
    + intros r' s' Hr' Hs'. rewrite blend_round_length. apply Hsafe; lia.
Qed.

Lemma seeded_length (E : list (vec3 F)) (d k : Z) :
  length (seeded E d k) = Z.to_nat (k - 1).
Proof. unfold seeded. by rewrite length_fmap, length_seqZ. Qed.

Lemma blend_rounds_length (U : list F) (u : F) (d k : Z) (C : list (vec3 F)) :
  length (blend_rounds U u d k C) = length C.
Proof.
  unfold blend_rounds. generalize ((λ j, k - j) <$> seqZ 0 (k - 2)).
  intros l. revert C. induction l as [|r l IH]; intros C; [done|].
  simpl. by rewrite IH, blend_round_length.
Qed.

(** The loop body computes the point the description gives, whenever the
    span index makes every read and every division safe. *)
Lemma curve_point_described (E : list (vec3 F)) (U : list F) (k m : Z) (u : F)
    (d : Z) :
  delta U u k m = Ok d → point_safe E U d k →
  curve_point E U k m u = Ok (blended_point E U u d k).
Proof.
  intros Hd (Hk & Hseed & Hblend). unfold curve_point. rewrite Hd. simpl.
  rewrite seed_loop_spec by (intros j ?; apply Hseed; lia).
  simpl. rewrite seqZ_of_to_nat. fold (seeded E d k). simpl.
  rewrite blend_outer_spec.
  - simpl. rewrite seqZ_of_to_nat. fold (blend_rounds U u d k (seeded E d k)).
    unfold blended_point. apply vget_vread.
    rewrite blend_rounds_length, seeded_length. lia.
  - intros r' s' Hr' Hs'. rewrite seeded_length. apply Hblend; lia.
Qed.

End Blend.

(** ** The blending inside de Boor's triangle *)

Lemma vread_insert_eq {A} (dflt : A) (v : list A) (s : Z) (a : A) :
  0 ≤ s < Z.of_nat (length v) → vread dflt (<[Z.to_nat s := a]> v) s = a.
Proof.
  intros Hs. apply vread_Ok, vget_Ok. split; [lia|].
  apply list_lookup_insert_eq. lia.
Qed.

Lemma vread_insert_ne {A} (dflt : A) (v : list A) (s s' : Z) (a : A) :
  0 ≤ s → 0 ≤ s' → s ≠ s' →
  vread dflt (<[Z.to_nat s := a]> v) s' = vread dflt v s'.
Proof.
  intros Hs Hs' Hne. unfold vread, vget.
  by rewrite list_lookup_insert_ne by lia.
Qed.

(** An invariant indexed by the loop counter holds after a fold over
    [a, a+1, ..., a+n-1]. *)
Lemma foldl_seqZ_invariant {A} (Inv : Z → A → Prop) (f : A → Z → A)
    (n : nat) (a : Z) (x : A) :
  Inv a x →
  (∀ i y, a ≤ i < a + Z.of_nat n → Inv i y → Inv (i + 1) (f y i)) →
  Inv (a + Z.of_nat n) (foldl f x (seqZ a (Z.of_nat n))).
Proof.
  revert a x. induction n as [|n IH]; intros a x Hx Hstep.
  - by replace (a + Z.of_nat 0) with a by lia.
  - rewrite seqZ_succ. simpl.
    replace (a + Z.of_nat (S n)) with (a + 1 + Z.of_nat n) by lia.
    apply IH; [apply Hstep; [lia | done]|].
    intros i y Hi. apply Hstep. lia.
Qed.

Section Triangle.
Context {F : Type} `{Scalar F}.
Variables (E : list (vec3 F)) (U : list F) (u : F) (d k : Z).

Local Abbreviation at_level := (at_level E U u d k).
Local Abbreviation mid_round := (mid_round E U u d k).

Lemma seeded_at_level_0 : at_level 0 (seeded E d k).
Proof.
  split; [apply seeded_length|]. intros s Hs. unfold seeded.
  apply vread_Ok.
  change (deBoor_point E U k u (Z.to_nat 0) (d - s)) with (vread origin E (d - s)).
  apply (vget_fmap_seqZ (λ j, vread origin E (d - j))). lia.
Qed.

Lemma blend_at_mid_round (t q : Z) (C : list (vec3 F)) :
  0 ≤ t → 0 ≤ q < k - t - 2 → mid_round t q C →
  mid_round t (q + 1) (blend_at U u d (k - t) C q).
Proof.
  intros Ht Hq (Hlen & Hdone & Htodo).
  split; [by rewrite blend_at_length|]. unfold blend_at. split.
  - intros s Hs. destruct (decide (s = q)) as [->|Hne].
    + rewrite vread_insert_eq by lia.
      replace (Z.to_nat (t + 1)) with (S (Z.to_nat t)) by lia.
      simpl deBoor_point. unfold omega_at.
      rewrite (Htodo q), (Htodo (q + 1)) by lia.
      replace (d - q + k - Z.of_nat (S (Z.to_nat t))) with (d - q + (k - t) - 1) by lia.
      by replace (d - (q + 1)) with (d - q - 1) by lia.
    + rewrite vread_insert_ne by lia. apply Hdone. lia.
  - intros s Hs. rewrite vread_insert_ne by lia. apply Htodo. lia.
Qed.

Lemma blend_round_at_level (t : Z) (C : list (vec3 F)) :
  0 ≤ t < k - 2 → at_level t C → at_level (t + 1) (blend_round U u d C (k - t)).
Proof.
  intros Ht [Hlen Hlev]. unfold blend_round.
  rewrite <-(seqZ_of_to_nat 0 (k - t - 2)).
  pose proof (foldl_seqZ_invariant (mid_round t) (blend_at U u d (k - t))
                (Z.to_nat (k - t - 2)) 0 C) as Hfold.
  destruct Hfold as (Hlen' & Hdone & _).
  - split; [done|]. split; [intros s ?; lia|]. intros s Hs. apply Hlev. lia.
  - intros q C' Hq HC'. apply blend_at_mid_round; [lia | lia | done].
  - split; [done|]. intros s Hs. apply Hdone. lia.
Qed.

(** The point the code computes is the entry [d] of level [k-2] of
    de Boor's triangle of order [k]; the curve point is the entry [d] of
    level [k-1]. *)
Lemma blended_point_deBoor_level :
  2 ≤ k →
  blended_point E U u d k = deBoor_point E U k u (Z.to_nat (k - 2)) d.
Proof.
  intros Hk. unfold blended_point, blend_rounds.
  rewrite foldl_fmap, <-(seqZ_of_to_nat 0 (k - 2)).
  pose proof (foldl_seqZ_invariant at_level (λ C j, blend_round U u d C (k - j))
                (Z.to_nat (k - 2)) 0 (seeded E d k)) as Hfold.
  destruct Hfold as [_ Hlev].
  - apply seeded_at_level_0.
  - intros t C Ht HC. apply blend_round_at_level; [lia | done].
  - rewrite Hlev by lia.
    replace (0 + Z.of_nat (Z.to_nat (k - 2))) with (k - 2) by lia.
    f_equal. lia.
Qed.

End Triangle.

(** ** Exact arithmetic: evaluation on standard knots *)

Local Open Scope Qc_scope.

Lemma Qc_eq_Qeq (x y : Qc) : x = y → (this x == this y)%Q.
Proof. by intros ->. Qed.

(** Linear arithmetic on [Qc], through [Q]. *)
Ltac qc_lra :=
  rewrite ?Z2Qc_inj_0, ?Z2Qc_inj_1 in *;
  repeat match goal with
  | H : @eq Qc _ _ |- _ => apply Qc_eq_Qeq in H
  end;
  try apply Qc_is_canon;
  unfold Qclt, Qcle, Qcdiv, Qcminus, Qcplus, Qcmult, Qcopp, Qcinv, Q2Qc, Qc_of_Z in *;
  cbn [this] in *;
  rewrite ?Qred_correct in *;
  lra.

Lemma Qceqb_neq (x y : Qc) : x ≠ y → Qceqb x y = false.
Proof.
  intros Hne. destruct (Qceqb x y) eqn:E; [|done].
  by apply Qceqb_eq in E.
Qed.

Lemma Qcminus_nonzero (a b : Qc) : a < b → b - a ≠ 0.
Proof. intros Hlt Heq. qc_lra. Qed.

Lemma standard_point_safe (k m : Z) (E : list (vec3 Qc)) (u : Qc) (d : Z) :
  (2 ≤ k)%Z → (k - 1 ≤ m)%Z → (m + 1 ≤ Z.of_nat (length E))%Z →
  in_span (standard_knots k m) u d = true →
  point_safe E (standard_knots k m) d k.
Proof.
  intros Hk Hm HE Hin.
  pose proof (standard_span_range k m u d Hm Hin) as Hd.
  apply standard_in_span in Hin as (_ & Hle & Hlt).
  split; [done|]. split; [intros j ?; lia|].
  intros r s Hr Hs.
  exists (knot_value k m (d - s)), (knot_value k m (d - s + r - 1)).
  rewrite !standard_vget by lia.
  split; [done|]. split; [done|]. split; [|lia].
  qc_ops. apply Qceqb_neq. rewrite Z2Qc_inj_0. apply Qcminus_nonzero.
  apply Qcle_lt_trans with u.
  - apply Qcle_trans with (knot_value k m d); [|done].
    apply knot_value_mono; lia.
  - apply Qclt_le_trans with (knot_value k m (d + 1)); [done|].
    apply knot_value_mono; lia.
Qed.

Lemma standard_curve_point (k m : Z) (E : list (vec3 Qc)) (u : Qc) :
  (2 ≤ k)%Z → (k - 1 ≤ m)%Z → (m + 1 ≤ Z.of_nat (length E))%Z →
  0 ≤ u → u < 1 →
  ∃ d, delta (standard_knots k m) u k m = Ok d ∧ (k - 1 ≤ d ≤ m)%Z ∧
       in_span (standard_knots k m) u d = true ∧
       point_safe E (standard_knots k m) d k ∧
       curve_point E (standard_knots k m) k m u
       = Ok (blended_point E (standard_knots k m) u d k).
Proof.
  intros Hk Hm HE H0 H1.
  destruct (standard_delta k m u Hk Hm H0 H1) as (d & Hd & Hrange & Hin).
  exists d. split; [done|]. split; [done|]. split; [done|].
  assert (Hsafe : point_safe E (standard_knots k m) d k)
    by by eapply standard_point_safe.
  split; [done|]. by apply curve_point_described.
Qed.

(** ** The sampling loop *)

Lemma sample_params_S (lo u_inc : Qc) (n : nat) :
  sample_params lo u_inc (S n) = lo :: sample_params (lo + u_inc) u_inc n.
Proof.
  unfold sample_params. rewrite fmap_seqZ_succ, fmap_seqZ_shift. f_equal.
  - rewrite Z2Qc_inj_0. ring.
  - apply list_fmap_ext. intros _ j _. rewrite Z2Qc_inj_add, Z2Qc_inj_1. ring.
Qed.

Lemma sample_params_length (lo u_inc : Qc) (n : nat) :
  length (sample_params lo u_inc n) = n.
Proof. unfold sample_params. rewrite length_fmap, length_seqZ. lia. Qed.

(** The loop started at [u] visits [n] parameters, all below [hi] and all
    evaluated without fault, and stops at the next one. *)
Lemma sample_loop_run (E : list (vec3 Qc)) (U : list Qc) (k m : Z)
    (u_inc hi : Qc) (pt : Qc → vec3 Qc) (n : nat) :
  vget U (m + 1) = Ok hi →
  ∀ (fuel : nat) (u : Qc) (g : CPU_Geometry Qc),
  Forall (λ v, v < hi ∧ curve_point E U k m v = Ok (pt v)) (sample_params u u_inc n) →
  hi ≤ u + Qc_of_Z (Z.of_nat n) * u_inc →
  (n < fuel)%nat →
  sample_loop E U k m u_inc fuel u g
  = Ok (Geometry (verts g ++ (pt <$> sample_params u u_inc n))
                 (cols g ++ replicate n curve_colour)).
Proof.
  intros Hhi. induction n as [|n IH]; intros fuel u g Hall Hstop Hfuel.
  - destruct fuel as [|fuel]; [lia|]. simpl. rewrite Hhi. simpl. qc_ops.
    replace (Qcltb u hi) with false; [by destruct g; rewrite !app_nil_r|].
    symmetry. apply Qcltb_ge. change (Z.of_nat 0) with 0%Z in Hstop. qc_lra.
  - destruct fuel as [|fuel]; [lia|].
    rewrite sample_params_S in Hall. apply Forall_cons_1 in Hall as [[Hlt Hpt] Hall].
    simpl sample_loop. rewrite Hhi. simpl. qc_ops.
    apply Qcltb_lt in Hlt. rewrite Hlt, Hpt. simpl.
    rewrite IH; [| done | | lia].
    + simpl. rewrite sample_params_S. unfold push_back. simpl.
      by rewrite <-!app_assoc.
    + replace (Z.of_nat (S n)) with (Z.of_nat n + 1)%Z in Hstop by lia.
      rewrite Z2Qc_inj_add, Z2Qc_inj_1 in Hstop.
      replace (u + u_inc + Qc_of_Z (Z.of_nat n) * u_inc)
        with (u + (Qc_of_Z (Z.of_nat n) + 1) * u_inc) by ring.
      done.
Qed.

Lemma Qc_le_ceiling (x : Qc) : x ≤ Qc_of_Z (Qceiling (this x)).
Proof. unfold Qcle. simpl. apply Qle_ceiling. Qed.

Lemma Qc_ceiling_lt (x : Qc) : Qc_of_Z (Qceiling (this x) - 1) < x.
Proof. unfold Qclt. simpl. apply Qceiling_lt. Qed.

Lemma Qcdiv_mult_cancel (a c : Qc) : c ≠ 0 → a / c * c = a.
Proof. intros. by field. Qed.

(** [sample_count] is the number of parameters below [hi]. *)
Lemma sample_count_below (lo hi u_inc : Qc) :
  0 < u_inc →
  Forall (λ v, lo ≤ v ∧ v < hi) (sample_params lo u_inc (sample_count lo hi u_inc)).
Proof.
  intros Hinc. unfold sample_params. apply Forall_fmap, Forall_seqZ.
  intros j Hj. simpl. unfold sample_count in Hj.
  assert (Hne : u_inc ≠ 0) by (intros ->; by apply Qclt_not_eq in Hinc).
  assert (H0j : 0 ≤ Qc_of_Z j * u_inc).
  { apply Qcmult_nonneg_nonneg; [|by apply Qclt_le_weak].
    rewrite <-Z2Qc_inj_0, <-Z2Qc_inj_le. lia. }
  assert (Hjx : Qc_of_Z j * u_inc < hi - lo).
  { rewrite <-(Qcdiv_mult_cancel (hi - lo) u_inc) by done.
    apply Qcmult_lt_mono_pos_r; [done|].
    apply Qcle_lt_trans with (Qc_of_Z (Qceiling (this ((hi - lo) / u_inc)) - 1)).
    - rewrite <-Z2Qc_inj_le. lia.
    - apply Qc_ceiling_lt. }
  split; qc_lra.
Qed.

Lemma sample_count_stop (lo hi u_inc : Qc) :
  0 < u_inc →
  hi ≤ lo + Qc_of_Z (Z.of_nat (sample_count lo hi u_inc)) * u_inc.
Proof.
  intros Hinc. unfold sample_count.
  assert (Hne : u_inc ≠ 0) by (intros ->; by apply Qclt_not_eq in Hinc).
  pose proof (Qc_le_ceiling ((hi - lo) / u_inc)) as Hc.
  set (c := Qceiling (this ((hi - lo) / u_inc))) in *.
  assert (Hx : hi - lo ≤ Qc_of_Z (Z.of_nat (Z.to_nat c)) * u_inc).
  { rewrite <-(Qcdiv_mult_cancel (hi - lo) u_inc) by done.
    apply Qcmult_le_mono_nonneg_r; [by apply Qclt_le_weak|].
    apply Qcle_trans with (Qc_of_Z c); [done|].
    rewrite <-Z2Qc_inj_le. lia. }
  qc_lra.
Qed.

(** On standard knots: the code returns the entry [d] of level [k-2] of
    de Boor's triangle, de Boor's algorithm the entry [d] of level [k-1]. *)
Lemma standard_curve_point_deBoor_level (k m : Z) (E : list (vec3 Qc)) (u : Qc) :
  (2 ≤ k)%Z → (k - 1 ≤ m)%Z → (m + 1 ≤ Z.of_nat (length E))%Z →
  0 ≤ u → u < 1 →
  ∃ d, delta (standard_knots k m) u k m = Ok d ∧
       curve_point E (standard_knots k m) k m u
       = Ok (deBoor_point E (standard_knots k m) k u (Z.to_nat (k - 2)) d) ∧
       deBoor E (standard_knots k m) k m u
       = Ok (deBoor_point E (standard_knots k m) k u (Z.to_nat (k - 1)) d).
Proof.
  intros Hk Hm HE H0 H1.
  destruct (standard_curve_point k m E u) as (d & Hd & _ & _ & _ & Hpt); [done..|].
  exists d. split; [done|]. split.
  - by rewrite Hpt, blended_point_deBoor_level.
  - unfold deBoor. by rewrite Hd.
Qed.

(** ** delta beyond the last knot *)

Lemma adjacent_le (U : list Qc) (n : nat) (i : Z) (a b : Qc) :
  (∀ j x y, vget U j = Ok x → vget U (j + 1) = Ok y → x ≤ y) →
  vget U i = Ok a → vget U (i + Z.of_nat n) = Ok b → a ≤ b.
Proof.
  intros Hadj. revert i a. induction n as [|n IH]; intros i a Ha Hb.
  - replace (i + Z.of_nat 0)%Z with i in Hb by lia.
    rewrite Ha in Hb. injection Hb as ->. apply Qcle_refl.
  - pose proof (vget_Ok_range _ _ _ Ha). pose proof (vget_Ok_range _ _ _ Hb).
    destruct (vget_in_range U (i + 1)) as [c Hc]; [lia|].
    apply Qcle_trans with c; [by eapply Hadj|].
    apply (IH (i + 1)%Z); [done|].
    by replace (i + 1 + Z.of_nat n)%Z with (i + Z.of_nat (S n))%Z by lia.
Qed.

(** On a non-decreasing knot vector, a parameter at or beyond the last knot
    is in no span, and [delta] returns the sentinel. *)
Lemma delta_beyond_last_knot (U : list Qc) (u last : Qc) (k m : Z) :
  Z.of_nat (length U) = (m + k + 1)%Z →
  (∀ j x y, vget U j = Ok x → vget U (j + 1) = Ok y → x ≤ y) →
  vget U (m + k) = Ok last → last ≤ u →
  delta U u k m = Ok (-1)%Z.
Proof.
  intros Hlen Hadj Hlast Hu. unfold delta.
  destruct (delta_loop_spec U u (Z.to_nat (m + k - 1)) 0) as (j & Hj & Hcases);
    [lia | lia |].
  destruct Hcases as [(Hr & Hin & _) | (-> & _)]; [|done].
  apply in_span_true in Hin as (a & b & Ha & Hb & _ & Hlt). qc_ops.
  apply Qcltb_lt in Hlt. exfalso.
  apply (Qclt_not_le u b); [done|].
  apply Qcle_trans with last; [|done].
  apply (adjacent_le U (Z.to_nat (m + k - (j + 1))) (j + 1) b last Hadj Hb).
  by replace (j + 1 + Z.of_nat (Z.to_nat (m + k - (j + 1))))%Z with (m + k)%Z by lia.
Qed.

(** ** Whole runs of efficientBSpline *)

Section EmptyDomain.
Context {F : Type} `{Scalar F}.

(** The loop test fails at once: nothing is sampled. *)
Lemma efficientBSpline_empty_domain (fuel : nat) (E : list (vec3 F))
    (U : list F) (M : list Z) (k m : Z) (u_inc lo hi : F) :
  vget U (k - 1) = Ok lo → vget U (m + 1) = Ok hi → fltb lo hi = false →
  efficientBSpline (S fuel) E U M k m u_inc = Ok (Geometry [] []).
Proof.
  intros Hlo Hhi Hcmp. unfold efficientBSpline. rewrite Hlo. simpl.
  by rewrite Hhi; simpl; rewrite Hcmp.
Qed.

End EmptyDomain.

(** The bounds of the domain on standard knots. *)
Lemma standard_domain (k m : Z) :
  (1 ≤ k)%Z → (0 ≤ m + 1)%Z →
  vget (standard_knots k m) (k - 1) = Ok 0 ∧
  vget (standard_knots k m) (m + 1) = Ok (if decide (m < k - 1)%Z then 0 else 1).
Proof.
  intros Hk Hm. rewrite !standard_vget by lia. rewrite knot_value_first.
  split; [done|]. case_decide.
  - by rewrite knot_value_low by lia.
  - by rewrite knot_value_last by lia.
Qed.

(** One sample when the first step already leaves the domain. *)
Lemma efficientBSpline_one_sample (fuel : nat) (E : list (vec3 Qc))
    (U : list Qc) (M : list Z) (k m : Z) (u_inc lo hi : Qc) (p : vec3 Qc) :
  vget U (k - 1) = Ok lo → vget U (m + 1) = Ok hi →
  lo < hi → hi ≤ lo + u_inc → curve_point E U k m lo = Ok p →
  efficientBSpline (S (S fuel)) E U M k m u_inc = Ok (Geometry [p] [curve_colour]).
Proof.
  intros Hlo Hhi Hlt Hstop Hp. unfold efficientBSpline. rewrite Hlo, bind_Ok.
  rewrite (sample_loop_run E U k m u_inc hi (λ _, p) 1 Hhi); [done| | |lia].
  - rewrite sample_params_S. apply Forall_cons_2; [by split|]. apply Forall_nil_2.
  - change (Z.of_nat 1) with 1%Z. rewrite Z2Qc_inj_1, Qcmult_1_l. done.
Qed.

(** The run on standard knots with a non-empty domain: the parameters
    [0, u_inc, 2 u_inc, ...] below 1, each evaluated as described. *)
Lemma standard_run (k m : Z) (E : list (vec3 Qc)) (M : list Z) (u_inc : Qc)
    (fuel : nat) :
  (2 ≤ k)%Z → (k - 1 ≤ m)%Z → (m + 1 ≤ Z.of_nat (length E))%Z → 0 < u_inc →
  (sample_count 0 1 u_inc < fuel)%nat →
  efficientBSpline fuel E (standard_knots k m) M k m u_inc
  = Ok (Geometry
          ((λ u, blended_point E (standard_knots k m) u
                   (span_index (standard_knots k m) u k m) k)
             <$> sample_params 0 u_inc (sample_count 0 1 u_inc))
          (replicate (sample_count 0 1 u_inc) curve_colour)).
Proof.
  intros Hk Hm HE Hinc Hfuel. unfold efficientBSpline.
  rewrite standard_vget, knot_value_first, bind_Ok by lia.
  rewrite (sample_loop_run E _ k m u_inc 1 (λ u, blended_point E (standard_knots k m) u
    (span_index (standard_knots k m) u k m) k) (sample_count 0 1 u_inc)).
  - done.
  - rewrite standard_vget, knot_value_last by lia. done.
  - eapply Forall_impl; [|exact (sample_count_below 0 1 u_inc Hinc)].
    intros v [H0 H1]. split; [done|].
    destruct (standard_curve_point k m E v) as (d & Hd & _ & _ & _ & Hpt); [done..|].
    unfold span_index. by rewrite Hd.
  - by apply sample_count_stop.
  - done.
Qed.

Local Close Scope Qc_scope.

(** ** Integers in binary32

    Below 2^24 the conversion of an integer to binary32 is exact: the
    comparisons of converted integers are those of the integers, and adding
    one to a converted integer is the conversion of the next. Read off the
    definitions of [SpecFloat]: an integer of [d <= 24] digits becomes a
    mantissa of 24 digits with exponent [d - 24]. *)





















Local Open Scope Qc_scope.

Local Close Scope Qc_scope.

(** ** standardKnot in any arithmetic

    The vector is built by pushing; what it holds is read off the loop,
    for any arithmetic in which the loop's tests on the counter come out as
    on the integers. *)



Section KnotsAnyArithmetic.
Context {F : Type} `{Scalar F}.





End KnotsAnyArithmetic.

(** In exact arithmetic the tests on the counter are those on the integers,
    whatever [k] and [m]. *)
Lemma Qc_counter_tests_exact (k m : Z) :
  counter_tests_exact (F := Qc) k m = true.
Proof.
  unfold counter_tests_exact. apply forallb_forall. intros i _. qc_ops.
  rewrite <-Z2Qc_inj_add, !Qcltb_of_Z, Qcleb_of_Z.
  by rewrite !bool_decide_eq_true_2 by done.
Qed.

Local Open Scope Qc_scope.

(** * Part IV: the statements of the specification *)

(** ** standardKnot *)

(** In exact arithmetic: for [k >= 2] and [m >= k-1], [standardKnot k m]
    returns a vector of length [m+k+1] that is non-decreasing, holds 0 at
    the indices [0 .. k-1], holds 1 at the indices [m+1 .. m+k], and whose
    entries at the indices [k .. m] each exceed the entry before by exactly
    [1/(m-k+2)]. The source computes in float, where the sums round; what
    holds there follows. *)
Theorem standardKnot_clamped_uniform (k m : Z) :
  (2 ≤ k)%Z → (k - 1 ≤ m)%Z →
  ∃ U, standardKnot k m = Ok U ∧
    Z.of_nat (length U) = (m + k + 1)%Z ∧
    (∀ i j a b, (i ≤ j)%Z → vget U i = Ok a → vget U j = Ok b → a ≤ b) ∧
    (∀ i, (0 ≤ i < k)%Z → vget U i = Ok 0) ∧
    (∀ i, (m + 1 ≤ i < m + k + 1)%Z → vget U i = Ok 1) ∧
    (∀ i, (k ≤ i < m + 1)%Z →
       ∃ a, vget U (i - 1) = Ok a ∧ vget U i = Ok (a + 1 / Qc_of_Z (m - k + 2))).
Proof.
  intros Hk Hm. exists (standard_knots k m).
  split; [apply standardKnot_closed; lia|].
  split; [rewrite standard_length; lia|].
  split; [|split; [|split]].
  - intros i j a b Hij Ha Hb.
    pose proof (vget_Ok_range _ _ _ Ha) as Hi.
    pose proof (vget_Ok_range _ _ _ Hb) as Hj.
    rewrite standard_length in Hi, Hj.
    rewrite standard_vget in Ha, Hb by lia.
    injection Ha as <-. injection Hb as <-. by apply knot_value_mono.
  - intros i Hi. rewrite standard_vget by lia. by rewrite knot_value_low by lia.
  - intros i Hi. rewrite standard_vget by lia. by rewrite knot_value_high by lia.
  - intros i Hi. exists (knot_value k m (i - 1)).
    rewrite !standard_vget by lia. split; [done|].
    f_equal. by apply knot_value_step.
Qed.

Lemma standardKnot_clamped_uniform_witness :
  ∃ U, standardKnot 3 4 = Ok U ∧
    Z.of_nat (length U) = (4 + 3 + 1)%Z ∧
    (∀ i j a b, (i ≤ j)%Z → vget U i = Ok a → vget U j = Ok b → a ≤ b) ∧
    (∀ i, (0 ≤ i < 3)%Z → vget U i = Ok 0) ∧
    (∀ i, (4 + 1 ≤ i < 4 + 3 + 1)%Z → vget U i = Ok 1) ∧
    (∀ i, (3 ≤ i < 4 + 1)%Z →
       ∃ a, vget U (i - 1) = Ok a ∧ vget U i = Ok (a + 1 / Qc_of_Z (4 - 3 + 2))).
Proof. apply (standardKnot_clamped_uniform 3 4); lia. Defined.




(** ** delta *)

(** C5: for [k >= 2], [m >= k-1], [U = standardKnot k m] and
    [U[k-1] <= u < U[m+1]], [delta U u k m] returns an index [i], not the
    sentinel -1, with [U[i] <= u < U[i+1]]. *)
Theorem delta_finds_the_span (k m : Z) (U : list Qc) (u lo hi : Qc) :
  (2 ≤ k)%Z → (k - 1 ≤ m)%Z → standardKnot k m = Ok U →
  vget U (k - 1) = Ok lo → vget U (m + 1) = Ok hi → lo ≤ u → u < hi →
  ∃ i a b, delta U u k m = Ok i ∧ i ≠ (-1)%Z ∧
           vget U i = Ok a ∧ vget U (i + 1) = Ok b ∧ a ≤ u ∧ u < b.
Proof.
  intros Hk Hm HU Hlo Hhi Hle Hlt.
  rewrite standardKnot_closed in HU by lia. injection HU as <-.
  rewrite standard_vget in Hlo, Hhi by lia.
  rewrite knot_value_first in Hlo. rewrite knot_value_last in Hhi by done.
  injection Hlo as <-. injection Hhi as <-.
  destruct (standard_delta k m u Hk Hm Hle Hlt) as (d & Hd & Hrange & Hin).
  apply in_span_true in Hin as (a & b & Ha & Hb & Hab & Hub). qc_ops.
  exists d, a, b. split; [done|]. split; [lia|].
  split; [done|]. split; [done|].
  by rewrite <-Qcleb_le, <-Qcltb_lt.
Qed.

Lemma delta_finds_the_span_witness :
  ∃ i a b,
    delta knots_2_1 half 2 1 = Ok i ∧
    i ≠ (-1)%Z ∧
    vget knots_2_1 i = Ok a ∧
    vget knots_2_1 (i + 1) = Ok b ∧
    a ≤ half ∧ half < b.
Proof.
  apply (delta_finds_the_span 2 1 _ _ (Qc_of_Z 0) (Qc_of_Z 1));
    [lia | lia | reflexivity | reflexivity | reflexivity
     | by vm_compute | by vm_compute].
Defined.

(** The loop of [delta], on any vector [U] of length [m+k+1] and in any
    arithmetic: the indices tried are 0 to [m+k-2]; [delta U u k m] is the
    smallest [i] there with [U[i] <= u < U[i+1]], and -1 exactly when no
    index in [0 .. m+k-2] has that property. *)
Theorem delta_first_span_up_to_m_k_2 {F : Type} `{Scalar F}
    (U : list F) (u : F) (k m : Z) :
  Z.of_nat (length U) = (m + k + 1)%Z →
  ∃ j, delta U u k m = Ok j ∧
    ((0 ≤ j ≤ m + k - 2)%Z ∧ in_span U u j = true ∧
       (∀ l, (0 ≤ l < j)%Z → in_span U u l = false)
     ∨ j = (-1)%Z) ∧
    (j = (-1)%Z ↔ ∀ l, (0 ≤ l ≤ m + k - 2)%Z → in_span U u l = false).
Proof.
  intros Hlen. unfold delta.
  destruct (delta_loop_spec U u (Z.to_nat (m + k - 1)) 0) as (j & Hj & Hcases);
    [lia | lia |].
  exists j. split; [done|].
  destruct Hcases as [(Hr & Hin & Hbefore) | (-> & Hnone)].
  - split; [left; split; [lia | done]|]. split; [lia|].
    intros Hnone. rewrite Hnone in Hin by lia. done.
  - split; [by right|]. split; [|done]. intros _ l Hl. apply Hnone. lia.
Qed.

Lemma delta_first_span_up_to_m_k_2_witness :
  ∃ j, delta knots_open_end (Qc_of_Z 3 / Qc_of_Z 2) 2 1 = Ok j ∧
    ((0 ≤ j ≤ 1 + 2 - 2)%Z ∧
       in_span knots_open_end (Qc_of_Z 3 / Qc_of_Z 2) j = true ∧
       (∀ l, (0 ≤ l < j)%Z →
          in_span knots_open_end (Qc_of_Z 3 / Qc_of_Z 2) l = false)
     ∨ j = (-1)%Z) ∧
    (j = (-1)%Z ↔
     ∀ l, (0 ≤ l ≤ 1 + 2 - 2)%Z →
       in_span knots_open_end (Qc_of_Z 3 / Qc_of_Z 2) l = false).
Proof.
  apply (delta_first_span_up_to_m_k_2
           knots_open_end (Qc_of_Z 3 / Qc_of_Z 2) 2 1).
  reflexivity.
Defined.

(** On a vector whose last two entries differ, which is no knot vector and
    which [standardKnot] never makes, the span at [m+k-1] is not empty and
    the loop does not reach it: with [k = 2], [m = 1], [U = [0; 0; 1; 2]]
    and [u = 3/2], [U[2] <= u < U[3]], yet [delta] returns -1. *)
Lemma delta_skips_index_m_k_1 :
  let U := knots_open_end in
  let u := Qc_of_Z 3 / Qc_of_Z 2 in
  ¬ (delta U u 2 1 = Ok (-1)%Z ↔
     ∀ i, (0 ≤ i ≤ 1 + 2 - 1)%Z → in_span U u i = false).
Proof.
  intros U u [Hnone _].
  specialize (Hnone eq_refl 2%Z). discriminate Hnone. lia.
Qed.

(** C6: for a knot vector [U] of length [m+k+1], [delta U u k m] returns
    the smallest [i] in [0 .. m+k-1] with [U[i] <= u < U[i+1]], and -1
    exactly when no index in [0 .. m+k-1] has that property. A knot vector
    ends with [k >= 2] equal knots; the theorem asks only that its last two
    are equal. The loop tries the indices up to [m+k-2]; the span at
    [m+k-1], between the last two knots, is empty. *)
Theorem delta_first_span_of_knot_vector (U : list Qc) (u last : Qc) (k m : Z) :
  Z.of_nat (length U) = (m + k + 1)%Z →
  vget U (m + k - 1) = Ok last → vget U (m + k) = Ok last →
  ∃ j, delta U u k m = Ok j ∧
    ((0 ≤ j ≤ m + k - 1)%Z ∧ in_span U u j = true ∧
       (∀ l, (0 ≤ l < j)%Z → in_span U u l = false)
     ∨ j = (-1)%Z) ∧
    (j = (-1)%Z ↔ ∀ l, (0 ≤ l ≤ m + k - 1)%Z → in_span U u l = false).
Proof.
  intros Hlen Hlast1 Hlast2.
  assert (Hempty : in_span U u (m + k - 1) = false).
  { unfold in_span. replace (m + k - 1 + 1)%Z with (m + k)%Z by lia.
    rewrite Hlast1, Hlast2. qc_ops.
    destruct (Qcleb last u) eqn:Hle; [|done]. simpl.
    by apply Qcltb_ge, Qcleb_le. }
  destruct (delta_first_span_up_to_m_k_2 U u k m Hlen) as (j & Hj & Hcases & Hiff).
  exists j. split; [done|]. split.
  - destruct Hcases as [(Hr & Hin & Hbefore) | ->]; [left | by right].
    split; [lia|]. done.
  - rewrite Hiff. split.
    + intros Hnone l Hl.
      destruct (decide (l = m + k - 1)%Z) as [->|]; [done|]. apply Hnone. lia.
    + intros Hnone l Hl. apply Hnone. lia.
Qed.

Lemma delta_first_span_of_knot_vector_witness :
  ∃ j, delta knots_2_1 half 2 1 = Ok j ∧
    ((0 ≤ j ≤ 1 + 2 - 1)%Z ∧ in_span knots_2_1 half j = true ∧
       (∀ l, (0 ≤ l < j)%Z → in_span knots_2_1 half l = false)
     ∨ j = (-1)%Z) ∧
    (j = (-1)%Z ↔ ∀ l, (0 ≤ l ≤ 1 + 2 - 1)%Z → in_span knots_2_1 half l = false).
Proof.
  apply (delta_first_span_of_knot_vector knots_2_1 half (Qc_of_Z 1) 2 1);
    reflexivity.
Defined.

(** ** efficientBSpline *)

(** C10: the result of [efficientBSpline] does not depend on [M]. *)
Theorem efficientBSpline_ignores_M {F : Type} `{Scalar F} (fuel : nat)
    (E : list (vec3 F)) (U : list F) (M1 M2 : list Z) (k m : Z) (u_inc : F) :
  efficientBSpline fuel E U M1 k m u_inc = efficientBSpline fuel E U M2 k m u_inc.
Proof. reflexivity. Qed.

(** C4: for [k >= 2], [m >= k-1], [U = standardKnot k m] and every [u] in
    [[U[k-1], U[m+1])], with [d = delta U u k m], the loop body of
    [efficientBSpline] returns the point the description gives: the list
    seeded with [E[d], E[d-1], ..., E[d-(k-2)]], blended for [r] from [k]
    down to 3 and [s] from 0 to [r-3] with
    [omega = (u - U[d-s]) / (U[d-s+r-1] - U[d-s])], read at index 0. The
    vertices [efficientBSpline] returns are these points, for the parameters
    [U[k-1], U[k-1] + u_inc, ...] below [U[m+1]]. *)
Theorem efficientBSpline_as_described (k m : Z) (E : list (vec3 Qc))
    (M : list Z) (U : list Qc) (u_inc lo hi : Qc) :
  (2 ≤ k)%Z → (k - 1 ≤ m)%Z → (m + 1 ≤ Z.of_nat (length E))%Z →
  standardKnot k m = Ok U → vget U (k - 1) = Ok lo → vget U (m + 1) = Ok hi →
  0 < u_inc →
  (∀ u, lo ≤ u → u < hi →
     ∃ d, delta U u k m = Ok d ∧
          curve_point E U k m u = Ok (blended_point E U u d k)) ∧
  (∀ fuel, (sample_count lo hi u_inc < fuel)%nat →
     efficientBSpline fuel E U M k m u_inc
     = Ok (Geometry
             ((λ u, blended_point E U u (span_index U u k m) k)
                <$> sample_params lo u_inc (sample_count lo hi u_inc))
             (replicate (sample_count lo hi u_inc) curve_colour))).
Proof.
  intros Hk Hm HE HU Hlo Hhi Hinc.
  rewrite standardKnot_closed in HU by lia. injection HU as <-.
  destruct (standard_domain k m) as [Hlo' Hhi']; [lia..|].
  rewrite decide_False in Hhi' by lia.
  rewrite Hlo' in Hlo. rewrite Hhi' in Hhi.
  injection Hlo as <-. injection Hhi as <-. split.
  - intros u H0 H1.
    destruct (standard_curve_point k m E u) as (d & Hd & _ & _ & _ & Hpt); [done..|].
    by exists d.
  - intros fuel Hfuel. by apply standard_run.
Qed.

Lemma efficientBSpline_as_described_witness :
  (∀ u, Qc_of_Z 0 ≤ u → u < Qc_of_Z 1 →
     ∃ d, delta knots_3_2 u 3 2 = Ok d ∧
          curve_point three_points knots_3_2 3 2 u
          = Ok (blended_point three_points knots_3_2 u d 3)) ∧
  (∀ fuel, (sample_count (Qc_of_Z 0) (Qc_of_Z 1) half < fuel)%nat →
     efficientBSpline fuel three_points knots_3_2 [1%Z] 3 2 half
     = Ok (Geometry
             ((λ u, blended_point three_points knots_3_2 u
                      (span_index knots_3_2 u 3 2) 3)
                <$> sample_params (Qc_of_Z 0) half
                      (sample_count (Qc_of_Z 0) (Qc_of_Z 1) half))
             (replicate (sample_count (Qc_of_Z 0) (Qc_of_Z 1) half) curve_colour))).
Proof.
  apply (efficientBSpline_as_described 3 2 three_points [1%Z] knots_3_2 half);
    [lia | lia | simpl; lia | reflexivity | reflexivity | reflexivity | by vm_compute].
Defined.

(** C7: for [k >= 2], [u_inc > 0] and at least two control points, with
    [m] the point count less one: when the domain [[U[k-1], U[m+1])] is
    empty, [efficientBSpline] returns the empty sequence, and on
    [standardKnot k m] this is so for every [m < k-1], where both bounds are
    0; when the domain is not empty and narrower than [u_inc], it returns
    one point. Both are normal returns. *)
Theorem efficientBSpline_small_domain (k : Z) (E : list (vec3 Qc))
    (M : list Z) (u_inc : Qc) (fuel : nat) :
  (2 ≤ k)%Z → (2 ≤ length E)%nat → 0 < u_inc →
  let m := (Z.of_nat (length E) - 1)%Z in
  (∀ U lo hi, vget U (k - 1) = Ok lo → vget U (m + 1) = Ok hi → hi ≤ lo →
     efficientBSpline (S fuel) E U M k m u_inc = Ok (Geometry [] [])) ∧
  (∃ U lo hi, standardKnot k m = Ok U ∧
     vget U (k - 1) = Ok lo ∧ vget U (m + 1) = Ok hi ∧
     ((m < k - 1)%Z → lo = 0 ∧ hi = 0) ∧
     (lo < hi → hi - lo < u_inc →
      ∃ p, efficientBSpline (S (S fuel)) E U M k m u_inc
           = Ok (Geometry [p] [curve_colour]))).
Proof.
  intros Hk HE Hinc m. split.
  - intros U lo hi Hlo Hhi Hempty.
    apply (efficientBSpline_empty_domain fuel E U M k m u_inc lo hi Hlo Hhi).
    qc_ops. by apply Qcltb_ge.
  - destruct (standard_domain k m) as [Hlo Hhi]; [lia..|].
    exists (standard_knots k m), 0. eexists.
    split; [apply standardKnot_closed; lia|].
    split; [done|]. split; [done|]. split.
    + intros Hm. by rewrite decide_True by done.
    + case_decide as Hm; [intros Hlt; by apply Qclt_not_eq in Hlt|].
      intros _ Hnarrow.
      destruct (standard_curve_point k m E 0) as (d & _ & _ & _ & _ & Hpt);
        [lia | lia | lia | done | done |].
      eexists. eapply efficientBSpline_one_sample; [done | done | done | | done].
      qc_lra.
Qed.

Lemma efficientBSpline_small_domain_witness :
  (∀ U lo hi, vget U (2 - 1) = Ok lo → vget U (1 + 1) = Ok hi → hi ≤ lo →
     efficientBSpline 1 two_points U [1%Z] 2 1 (Qc_of_Z 2) = Ok (Geometry [] [])) ∧
  (∃ U lo hi, standardKnot 2 1 = Ok U ∧
     vget U (2 - 1) = Ok lo ∧ vget U (1 + 1) = Ok hi ∧
     ((1 < 2 - 1)%Z → lo = 0 ∧ hi = 0) ∧
     (lo < hi → hi - lo < Qc_of_Z 2 →
      ∃ p, efficientBSpline 2 two_points U [1%Z] 2 1 (Qc_of_Z 2)
           = Ok (Geometry [p] [curve_colour]))).
Proof.
  apply (efficientBSpline_small_domain 2 two_points [1%Z] (Qc_of_Z 2) 0);
    [lia | simpl; lia | by vm_compute].
Defined.

(** C9: for [k >= 2], at least two control points, [u_inc > 0] and
    [U = standardKnot k m] with [m] the point count less one,
    [efficientBSpline] runs without reading outside a vector and without a
    zero divisor. For each [u] of the domain the span index [d] has
    [k-1 <= d <= m]; the seeded indices [d - i], [i] in [[0, k-2]], lie in
    [[0, m]]; the blend reads [C[s]] and [C[s+1]] within the [k-1] seeded
    entries; each divisor [U[i+r-1] - U[i]] is positive. For [m < k-1] the
    domain is empty. *)
Theorem efficientBSpline_in_bounds (k : Z) (E : list (vec3 Qc))
    (M : list Z) (u_inc : Qc) :
  (2 ≤ k)%Z → (2 ≤ length E)%nat → 0 < u_inc →
  let m := (Z.of_nat (length E) - 1)%Z in
  ∃ U lo hi, standardKnot k m = Ok U ∧
    vget U (k - 1) = Ok lo ∧ vget U (m + 1) = Ok hi ∧
    (∀ fuel, (sample_count lo hi u_inc < fuel)%nat →
       ∃ g, efficientBSpline fuel E U M k m u_inc = Ok g) ∧
    ((m < k - 1)%Z → ¬ lo < hi) ∧
    (∀ u, lo ≤ u → u < hi →
       ∃ d, delta U u k m = Ok d ∧ (k - 1 ≤ d ≤ m)%Z ∧
         (∀ i, (0 ≤ i ≤ k - 2)%Z → (0 ≤ d - i ≤ m)%Z) ∧
         (∀ r s, (3 ≤ r ≤ k)%Z → (0 ≤ s ≤ r - 3)%Z →
            (0 ≤ s)%Z ∧ (s + 1 ≤ k - 2)%Z ∧
            ∃ a b, vget U (d - s) = Ok a ∧ vget U (d - s + r - 1) = Ok b ∧
                   0 < b - a) ∧
         ∃ p, curve_point E U k m u = Ok p).
Proof.
  intros Hk HE Hinc m.
  destruct (standard_domain k m) as [Hlo Hhi]; [lia..|].
  exists (standard_knots k m), 0. eexists.
  split; [apply standardKnot_closed; lia|].
  split; [done|]. split; [done|].
  case_decide as Hm.
  - split; [|split].
    + intros [|fuel] Hfuel; [lia|]. eexists.
      eapply efficientBSpline_empty_domain; [done | done | by vm_compute].
    + intros _ Hlt. by apply Qclt_not_eq in Hlt.
    + intros u H0 H1. exfalso.
      apply (Qclt_not_le u 0); [done | done].
  - split; [|split].
    + intros fuel Hfuel. eexists. apply standard_run; [lia..|done|done].
    + lia.
    + intros u H0 H1.
      destruct (standard_curve_point k m E u) as (d & Hd & Hrange & Hin & _ & Hpt);
        [lia | lia | lia | done | done |].
      exists d. split; [done|]. split; [done|]. split; [intros i ?; lia|].
      split; [|by eexists].
      intros r s Hr Hs. split; [lia|]. split; [lia|].
      exists (knot_value k m (d - s)), (knot_value k m (d - s + r - 1)).
      rewrite !standard_vget by lia. split; [done|]. split; [done|].
      apply standard_in_span in Hin as (_ & Hle & Hlt).
      assert (knot_value k m (d - s) ≤ knot_value k m d)
        by (apply knot_value_mono; lia).
      assert (knot_value k m (d + 1) ≤ knot_value k m (d - s + r - 1))
        by (apply knot_value_mono; lia).
      qc_lra.
Qed.

Lemma efficientBSpline_in_bounds_witness :
  ∃ U lo hi, standardKnot 3 (Z.of_nat (length three_points) - 1) = Ok U ∧
    vget U (3 - 1) = Ok lo ∧
    vget U (Z.of_nat (length three_points) - 1 + 1) = Ok hi ∧
    (∀ fuel, (sample_count lo hi half < fuel)%nat →
       ∃ g, efficientBSpline fuel three_points U [1%Z] 3
              (Z.of_nat (length three_points) - 1) half = Ok g) ∧
    ((Z.of_nat (length three_points) - 1 < 3 - 1)%Z → ¬ lo < hi) ∧
    (∀ u, lo ≤ u → u < hi →
       ∃ d, delta U u 3 (Z.of_nat (length three_points) - 1) = Ok d ∧
         (3 - 1 ≤ d ≤ Z.of_nat (length three_points) - 1)%Z ∧
         (∀ i, (0 ≤ i ≤ 3 - 2)%Z →
               (0 ≤ d - i ≤ Z.of_nat (length three_points) - 1)%Z) ∧
         (∀ r s, (3 ≤ r ≤ 3)%Z → (0 ≤ s ≤ r - 3)%Z →
            (0 ≤ s)%Z ∧ (s + 1 ≤ 3 - 2)%Z ∧
            ∃ a b, vget U (d - s) = Ok a ∧ vget U (d - s + r - 1) = Ok b ∧
                   0 < b - a) ∧
         ∃ p, curve_point three_points U 3
                (Z.of_nat (length three_points) - 1) u = Ok p).
Proof.
  apply (efficientBSpline_in_bounds 3 three_points [1%Z] half);
    [lia | simpl; lia | by vm_compute].
Defined.

(** ** Where the code and the specification part *)

(** Closed equalities on [Qc] data, by running the decision procedure. *)
Ltac by_evaluation := apply (bool_decide_unpack _); vm_compute; exact I.

Lemma standard_knots_2_1 : standard_knots 2 1 = knots_2_1.
Proof. by_evaluation. Qed.

Lemma standard_knots_3_2 : standard_knots 3 2 = knots_3_2.
Proof. by_evaluation. Qed.

(** The de Boor algorithm above on a known curve: three control points with
    [k = 3] are a quadratic Bezier curve, whose point at 1/2 is
    [E0/4 + E1/2 + E2/4]. *)
Example deBoor_quadratic_bezier :
  deBoor three_points knots_3_2 3 2 half
  = Ok (Vec3 (Qc_of_Z 3 / Qc_of_Z 4) (1 / Qc_of_Z 4) 0).
Proof. by_evaluation. Qed.

(** C3 against the code: two control points [(0,0,0)], [(1,0,0)], [k = 2],
    [u_inc = 1/2]. The samples are taken at [u = 0] and [u = 1/2]; the
    segment has [(0,0,0)] and [(1/2,0,0)] there, the code returns [(1,0,0)]
    twice. *)
Theorem two_points_samples_are_the_second_point :
  standardKnot 2 1 = Ok knots_2_1 ∧
  efficientBSpline 3 two_points knots_2_1 [1%Z] 2 1 half
  = Ok (Geometry [pt3 1 0 0; pt3 1 0 0] [curve_colour; curve_colour]) ∧
  segment_point (pt3 0 0 0) (pt3 1 0 0) 0 = pt3 0 0 0 ∧
  segment_point (pt3 0 0 0) (pt3 1 0 0) half = Vec3 half 0 0 ∧
  pt3 1 0 0 ≠ pt3 0 0 0 ∧ pt3 1 0 0 ≠ Vec3 half 0 0.
Proof.
  split; [reflexivity|]. split; [by_evaluation|].
  split; [by_evaluation|]. split; [by_evaluation|].
  split; intros Heq; by apply (f_equal x3) in Heq.
Qed.

(** The same run with the roundings of the source: [u_inc = 0.2f] gives five
    samples, all of them the second control point. *)
Example binary32_two_points_samples :
  (U ← standardKnot (H := Binary32.scalar) 2 1;
   efficientBSpline (H := Binary32.scalar) 10
     [b32_pt3 0 0 0; b32_pt3 1 0 0] U [1%Z] 2 1 (f0_2 (H := Binary32.scalar)))
  = Ok (Geometry (replicate 5 (b32_pt3 1 0 0))
                 (replicate 5 (curve_colour (H := Binary32.scalar)))).
Proof. vm_compute. reflexivity. Qed.

Lemma fmap_const_replicate {A B} (f : A → B) (c : B) (l : list A) :
  Forall (λ x, f x = c) l → f <$> l = replicate (length l) c.
Proof.
  induction 1 as [|x l Hx _ IH]; [done|].
  rewrite fmap_cons, Hx, IH. done.
Qed.

(** With two control points and [k = 2] every sample is [E[1]], whatever the
    points and the step. *)
Lemma two_points_run (E0 E1 : vec3 Qc) (M : list Z) (u_inc : Qc) (fuel : nat) :
  0 < u_inc → (sample_count 0 1 u_inc < fuel)%nat →
  efficientBSpline fuel [E0; E1] knots_2_1 M 2 1 u_inc
  = Ok (Geometry (replicate (sample_count 0 1 u_inc) E1)
                 (replicate (sample_count 0 1 u_inc) curve_colour)).
Proof.
  intros Hinc Hfuel. rewrite <-standard_knots_2_1.
  rewrite standard_run by (done || simpl; lia).
  do 2 f_equal.
  transitivity (replicate (length (sample_params 0 u_inc (sample_count 0 1 u_inc))) E1);
    [|by rewrite sample_params_length].
  apply fmap_const_replicate.
  eapply Forall_impl; [|exact (sample_count_below 0 1 u_inc Hinc)].
  intros v [H0 H1].
  destruct (standard_delta 2 1 v) as (d & Hd & Hrange & _); [lia..|done|done|].
  unfold span_index. rewrite Hd. replace d with 1%Z by lia. reflexivity.
Qed.

(** C1 against the code: at the first parameter of the two-point curve the
    code returns [E[1]] and de Boor's algorithm [E[0]]; at 1/2 on the
    three-point curve with [k = 3] the code returns [(1, 1/2, 0)] and
    de Boor's algorithm [(3/4, 1/4, 0)]. *)
Theorem curve_point_is_not_deBoor :
  standardKnot 2 1 = Ok knots_2_1 ∧
  curve_point two_points knots_2_1 2 1 0 = Ok (pt3 1 0 0) ∧
  deBoor two_points knots_2_1 2 1 0 = Ok (pt3 0 0 0) ∧
  standardKnot 3 2 = Ok knots_3_2 ∧
  curve_point three_points knots_3_2 3 2 half = Ok (Vec3 1 half 0) ∧
  deBoor three_points knots_3_2 3 2 half
  = Ok (Vec3 (Qc_of_Z 3 / Qc_of_Z 4) (1 / Qc_of_Z 4) 0) ∧
  curve_point two_points knots_2_1 2 1 0 ≠ deBoor two_points knots_2_1 2 1 0 ∧
  curve_point three_points knots_3_2 3 2 half
  ≠ deBoor three_points knots_3_2 3 2 half.
Proof.
  split; [reflexivity|]. split; [by_evaluation|]. split; [by_evaluation|].
  split; [reflexivity|]. split; [by_evaluation|]. split; [by_evaluation|].
  split; apply (bool_decide_unpack _); vm_compute; exact I.
Qed.

(** ** The coordinate conversions *)

(** C8, as the code has it: a point of GL space sent to the screen with
    [glPosToScreenCoords] and read back with the transform of
    [getCursorPosGL] comes back moved by half a pixel, [1/w] to the right
    and [1/h] down, for window dimensions [w, h > 0]. *)
Theorem gl_screen_gl_offset (cb : MyCallbacks) (p : vec2 Qc) :
  (0 < screenWidth cb)%Z → (0 < screenHeight cb)%Z →
  gl_screen_gl cb p
  = Vec2 (x2 p + 1 / Qc_of_Z (screenWidth cb))
         (y2 p - 1 / Qc_of_Z (screenHeight cb)).
Proof.
  intros Hw Hh.
  pose proof (Qc_of_Z_nonzero _ Hw). pose proof (Qc_of_Z_nonzero _ Hh).
  unfold gl_screen_gl, getCursorPosGL, glPosToScreenCoords, cursorPosCallback,
    v2add, v2sub, v2mul, v2div, v2scale, f0_5. simpl. qc_ops.
  rewrite Z2Qc_inj_1, Z2Qc_inj_2.
  f_equal; field; split; try done; by apply Qc_of_Z_nonzero.
Qed.

Lemma gl_screen_gl_offset_witness :
  gl_screen_gl window_800 (Vec2 0 0)
  = Vec2 (0 + 1 / Qc_of_Z (screenWidth window_800))
         (0 - 1 / Qc_of_Z (screenHeight window_800)).
Proof. apply (gl_screen_gl_offset window_800 (Vec2 0 0)); reflexivity. Defined.

(** C8, as the specification words it, fails: in an 800 by 800 window the
    centre of GL space comes back as [(1/800, -1/800)]. *)
Lemma gl_screen_gl_moves_the_origin :
  gl_screen_gl window_800 (Vec2 0 0)
  = Vec2 (1 / Qc_of_Z 800) (- (1 / Qc_of_Z 800)) ∧
  gl_screen_gl window_800 (Vec2 0 0) ≠ Vec2 0 0.
Proof.
  split; [by_evaluation|].
  apply (bool_decide_unpack _). vm_compute. exact I.
Qed.

(** The same with the roundings of the source: the result is
    [10737664 * 2^-33], about 0.00125, in x and its opposite in y. *)
Example binary32_gl_screen_gl_origin :
  gl_screen_gl (H := Binary32.scalar) b32_window_800 (Vec2 (b32 0) (b32 0))
  = Vec2 (S754_finite false 10737664 (-33)) (S754_finite true 10737664 (-33)).
Proof. vm_compute. reflexivity. Qed.

(** The other way round the two conversions do agree up to the pixel centre:
    the cursor, read in GL space and sent back to the screen, is the cursor
    moved by [(0.5, 0.5)], which is what the hit test compares with. *)
Lemma screen_gl_screen_centre (cb : MyCallbacks (F := Qc)) :
  (0 < screenWidth cb)%Z → (0 < screenHeight cb)%Z →
  glPosToScreenCoords cb (getCursorPosGL cb)
  = Vec2 (screenMouseX cb + half) (screenMouseY cb + half).
Proof.
  intros Hw Hh.
  pose proof (Qc_of_Z_nonzero _ Hw). pose proof (Qc_of_Z_nonzero _ Hh).
  unfold getCursorPosGL, glPosToScreenCoords, half,
    v2add, v2sub, v2mul, v2div, v2scale, f0_5. simpl. qc_ops.
  rewrite Z2Qc_inj_1, Z2Qc_inj_2.
  f_equal; field; split; try done; by apply Qc_of_Z_nonzero.
Qed.

Local Close Scope Qc_scope.

(** * Part V: the callbacks, the hit test and the frame *)

(** ** The mouse flags *)

Lemma mouseButtonCallback_currentFrame (ms : MouseState) (button : mouse_button)
    (action : button_action) (mods : Z) (want : bool) :
  currentFrame (mouseButtonCallback ms button action mods want) = currentFrame ms.
Proof. by destruct want, button, action. Qed.

Lemma mouseButtonCallback_lastLeft (ms : MouseState) (button : mouse_button)
    (action : button_action) (mods : Z) (want : bool) :
  lastLeftPressedFrame (mouseButtonCallback ms button action mods want)
  = if negb want && bool_decide (button = GLFW_MOUSE_BUTTON_LEFT)
       && bool_decide (action = GLFW_PRESS)
    then currentFrame ms else lastLeftPressedFrame ms.
Proof. by destruct want, button, action. Qed.

Lemma mouseButtonCallback_lastRight (ms : MouseState) (button : mouse_button)
    (action : button_action) (mods : Z) (want : bool) :
  lastRightPressedFrame (mouseButtonCallback ms button action mods want)
  = if negb want && bool_decide (button = GLFW_MOUSE_BUTTON_RIGHT)
       && bool_decide (action = GLFW_PRESS)
    then currentFrame ms else lastRightPressedFrame ms.
Proof. by destruct want, button, action. Qed.

Lemma mouseButtonCallback_flags_ok (ms : MouseState) (button : mouse_button)
    (action : button_action) (mods : Z) (want : bool) :
  flags_ok ms → flags_ok (mouseButtonCallback ms button action mods want).
Proof.
  intros [??]. unfold flags_ok.
  rewrite mouseButtonCallback_lastLeft, mouseButtonCallback_lastRight,
    mouseButtonCallback_currentFrame.
  split; [destruct (_ && _ && _) | destruct (_ && _ && _)]; lia.
Qed.

Section Polling.
Context {F : Type} `{Scalar F}.

Lemma dispatch_currentFrame (cb : callbacks) (c : callback_call F) :
  currentFrame (dispatch cb c).2 = currentFrame cb.2.
Proof. destruct c; simpl; [apply mouseButtonCallback_currentFrame | done..]. Qed.

Lemma dispatch_flags_ok (cb : callbacks) (c : callback_call F) :
  flags_ok cb.2 → flags_ok (dispatch cb c).2.
Proof. destruct c; simpl; [apply mouseButtonCallback_flags_ok | done..]. Qed.

Lemma dispatch_left_just_pressed (cb : callbacks) (c : callback_call F) :
  leftMouseJustPressed (dispatch cb c).2
  = leftMouseJustPressed cb.2 || is_left_press c.
Proof.
  unfold leftMouseJustPressed.
  destruct c as [button action mods want| |]; simpl; [|by rewrite orb_false_r..].
  destruct want, button, action; simpl; rewrite ?orb_false_r; try done.
  rewrite bool_decide_eq_true_2 by done. by rewrite orb_true_r.
Qed.

Lemma dispatch_right_just_pressed (cb : callbacks) (c : callback_call F) :
  rightMouseJustPressed (dispatch cb c).2
  = rightMouseJustPressed cb.2 || is_right_press c.
Proof.
  unfold rightMouseJustPressed.
  destruct c as [button action mods want| |]; simpl; [|by rewrite orb_false_r..].
  destruct want, button, action; simpl; rewrite ?orb_false_r; try done.
  rewrite bool_decide_eq_true_2 by done. by rewrite orb_true_r.
Qed.

(** Without a left press the button cannot become held. *)
Lemma dispatch_left_active (cb : callbacks) (c : callback_call F) :
  is_left_press c = false →
  leftMouseActiveVal (dispatch cb c).2 = true → leftMouseActiveVal cb.2 = true.
Proof.
  destruct c as [button action mods want| |]; simpl; [|done..].
  by destruct want, button, action.
Qed.

Lemma pollEvents_currentFrame (calls : list (callback_call F)) (cb : callbacks) :
  currentFrame (pollEvents calls cb).2 = currentFrame cb.2.
Proof.
  revert cb. induction calls as [|c calls IH]; intros cb; [done|].
  simpl. by rewrite IH, dispatch_currentFrame.
Qed.

Lemma pollEvents_flags_ok (calls : list (callback_call F)) (cb : callbacks) :
  flags_ok cb.2 → flags_ok (pollEvents calls cb).2.
Proof.
  revert cb. induction calls as [|c calls IH]; intros cb Hok; [done|].
  simpl. by apply IH, dispatch_flags_ok.
Qed.

Lemma pollEvents_left_just_pressed (calls : list (callback_call F)) (cb : callbacks) :
  leftMouseJustPressed (pollEvents calls cb).2
  = leftMouseJustPressed cb.2 || existsb is_left_press calls.
Proof.
  revert cb. induction calls as [|c calls IH]; intros cb; simpl.
  - by rewrite orb_false_r.
  - by rewrite IH, dispatch_left_just_pressed, orb_assoc.
Qed.

Lemma pollEvents_right_just_pressed (calls : list (callback_call F)) (cb : callbacks) :
  rightMouseJustPressed (pollEvents calls cb).2
  = rightMouseJustPressed cb.2 || existsb is_right_press calls.
Proof.
  revert cb. induction calls as [|c calls IH]; intros cb; simpl.
  - by rewrite orb_false_r.
  - by rewrite IH, dispatch_right_just_pressed, orb_assoc.
Qed.

Lemma pollEvents_left_active (calls : list (callback_call F)) (cb : callbacks) :
  existsb is_left_press calls = false →
  leftMouseActiveVal (pollEvents calls cb).2 = true →
  leftMouseActiveVal cb.2 = true.
Proof.
  revert cb. induction calls as [|c calls IH]; intros cb; simpl; [done|].
  intros [Hc Hrest]%orb_false_iff Hactive.
  eapply dispatch_left_active; [done|]. by apply IH.
Qed.

Lemma increment_not_just_pressed (ms : MouseState) :
  flags_ok ms →
  leftMouseJustPressed (incrementFrameCount ms) = false ∧
  rightMouseJustPressed (incrementFrameCount ms) = false.
Proof.
  intros [??]. unfold leftMouseJustPressed, rightMouseJustPressed. simpl.
  split; apply bool_decide_eq_false_2; lia.
Qed.

Lemma just_pressed_facts (calls : list (callback_call F))
    (view : MyCallbacks) (ms : MouseState) :
  flags_ok ms →
  leftMouseJustPressed (pollEvents calls (view, incrementFrameCount ms)).2
  = existsb is_left_press calls ∧
  rightMouseJustPressed (pollEvents calls (view, incrementFrameCount ms)).2
  = existsb is_right_press calls ∧
  flags_ok (pollEvents calls (view, incrementFrameCount ms)).2.
Proof.
  intros Hok.
  destruct (increment_not_just_pressed ms Hok) as [Hl Hr].
  rewrite pollEvents_left_just_pressed, pollEvents_right_just_pressed.
  simpl. rewrite Hl, Hr. split; [done|]. split; [done|].
  apply pollEvents_flags_ok. destruct Hok. split; simpl; lia.
Qed.

(** X1: a press is reported in the frame it arrives in and in no other:
    after [incrementFrameCount] and the calls of the frame,
    [leftMouseJustPressed] holds exactly when one of the calls is a left
    press that ImGui did not keep, and likewise on the right; the flags stay
    behind the frame counter. *)
Theorem just_pressed_iff_press_this_frame (calls : list (callback_call F))
    (view : MyCallbacks) (ms : MouseState) :
  flags_ok ms →
  let cb := pollEvents calls (view, incrementFrameCount ms) in
  leftMouseJustPressed cb.2 = existsb is_left_press calls ∧
  rightMouseJustPressed cb.2 = existsb is_right_press calls ∧
  flags_ok cb.2.
Proof.
  intros Hok cb. subst cb. by apply just_pressed_facts.
Qed.

End Polling.

(** ** The hit test *)

Lemma vget_fmap {A B} (f : A → B) (v : list A) (i : Z) :
  vget (f <$> v) i
  = match vget v i with Ok a => Ok (f a) | Fault e => Fault e end.
Proof.
  unfold vget. case_decide; [|done].
  rewrite list_lookup_fmap. by destruct (v !! Z.to_nat i).
Qed.

Lemma vget_elem_of {A} (v : list A) (i : Z) (a : A) : vget v i = Ok a → a ∈ v.
Proof. intros [_ Hl]%vget_Ok. by eapply list_elem_of_lookup_2. Qed.

Lemma elem_of_vget {A} (v : list A) (a : A) :
  a ∈ v → ∃ i, 0 ≤ i < Z.of_nat (length v) ∧ vget v i = Ok a.
Proof.
  intros [n Hn]%list_elem_of_lookup_1. exists (Z.of_nat n).
  pose proof (lookup_lt_Some _ _ _ Hn). split; [lia|].
  apply vget_Ok. split; [lia|]. by rewrite Nat2Z.id.
Qed.

Section HitTest.
Context {F : Type} `{Scalar F} `{Length F}.

Lemma hit_loop_spec (ps : list (vec3 F)) (cursor : vec3 F) (thr : F)
    (n : nat) (i : Z) :
  0 ≤ i → i + Z.of_nat n ≤ Z.of_nat (length ps) →
  ∃ j, hit_loop ps cursor thr n i = Ok j ∧
    ((i ≤ j < i + Z.of_nat n ∧
      (∃ p, vget ps j = Ok p ∧ length_below (v3sub p cursor) thr = true) ∧
      (∀ l p, i ≤ l < j → vget ps l = Ok p →
              length_below (v3sub p cursor) thr = false))
     ∨ (j = -1 ∧
        ∀ l p, i ≤ l < i + Z.of_nat n → vget ps l = Ok p →
               length_below (v3sub p cursor) thr = false)).
Proof.
  revert i. induction n as [|n IH]; intros i Hi Hlen.
  - exists (-1). split; [done|]. right. split; [done|]. intros l p ?. lia.
  - destruct (vget_in_range ps i) as [p Hp]; [lia|].
    simpl. rewrite Hp. simpl.
    destruct (length_below (v3sub p cursor) thr) eqn:Hhit.
    + exists i. split; [done|]. left. split; [lia|].
      split; [by exists p|]. intros l q ?. lia.
    + destruct (IH (i + 1)) as (j & Hj & Hcases); [lia | lia |].
      exists j. split; [done|].
      destruct Hcases as [(Hr & Hin & Hbefore) | (-> & Hnone)].
      * left. split; [lia|]. split; [done|]. intros l q Hl Hq.
        destruct (decide (l = i)) as [->|]; [|apply (Hbefore l); [lia | done]].
        rewrite Hp in Hq. by injection Hq as <-.
      * right. split; [done|]. intros l q Hl Hq.
        destruct (decide (l = i)) as [->|]; [|apply (Hnone l); [lia | done]].
        rewrite Hp in Hq. by injection Hq as <-.
Qed.

(** The hit test returns the first point that is hit, or -1 when none is. *)
Lemma indexOfPointAtCursorPos_spec (cb : MyCallbacks) (vs : list (vec3 F))
    (thr : F) :
  ∃ j, indexOfPointAtCursorPos cb vs thr = Ok j ∧
    ((0 ≤ j < Z.of_nat (length vs) ∧
      (∃ v, vget vs j = Ok v ∧ point_hit cb thr v = true) ∧
      (∀ l v, 0 ≤ l < j → vget vs l = Ok v → point_hit cb thr v = false))
     ∨ (j = -1 ∧ ∀ v, v ∈ vs → point_hit cb thr v = false)).
Proof.
  unfold indexOfPointAtCursorPos.
  set (f := λ v : vec3 F, vec3_of (glPosToScreenCoords cb (vec2_of v)) f0).
  set (cursor := Vec3 _ _ _).
  destruct (hit_loop_spec (f <$> vs) cursor thr (length (f <$> vs)) 0)
    as (j & Hj & Hcases); [lia | lia |].
  rewrite length_fmap in Hcases.
  exists j. split; [done|].
  destruct Hcases as [(Hr & (p & Hp & Hhit) & Hbefore) | (-> & Hnone)].
  - left. split; [lia|]. rewrite vget_fmap in Hp.
    destruct (vget vs j) as [v|] eqn:Hv; [|done]. injection Hp as <-.
    split; [by exists v|]. intros l w Hl Hw.
    apply (Hbefore l (f w)); [done|]. by rewrite vget_fmap, Hw.
  - right. split; [done|]. intros v (l & Hl & Hv)%elem_of_vget.
    apply (Hnone l (f v)); [lia|]. by rewrite vget_fmap, Hv.
Qed.

(** X2: [indexOfPointAtCursorPos] never faults; it returns the lowest index
    whose point is hit, and -1 exactly when no point of the list is hit. *)
Theorem indexOfPointAtCursorPos_first_hit (cb : MyCallbacks)
    (vs : list (vec3 F)) (thr : F) :
  ∃ j, indexOfPointAtCursorPos cb vs thr = Ok j ∧
    ((0 ≤ j < Z.of_nat (length vs) ∧
      (∃ v, vget vs j = Ok v ∧ point_hit cb thr v = true) ∧
      (∀ l v, 0 ≤ l < j → vget vs l = Ok v → point_hit cb thr v = false))
     ∨ j = -1) ∧
    (j = -1 ↔ ∀ v, v ∈ vs → point_hit cb thr v = false).
Proof.
  destruct (indexOfPointAtCursorPos_spec cb vs thr) as (j & Hj & Hcases).
  exists j. split; [done|].
  destruct Hcases as [(Hr & (v & Hv & Hhit) & Hbefore) | (-> & Hnone)].
  - split; [left; split; [done|]; split; [by exists v | done]|].
    split; [lia|]. intros Hnone.
    rewrite (Hnone v) in Hhit; [done | by eapply vget_elem_of].
  - split; [by right|]. done.
Qed.

End HitTest.

(** ** The shape of what efficientBSpline returns *)

Section Shape.
Context {F : Type} `{Scalar F}.

Lemma sample_loop_shape (E : list (vec3 F)) (U : list F) (k m : Z) (u_inc : F)
    (fuel : nat) (u : F) (g g' : CPU_Geometry F) :
  sample_loop E U k m u_inc fuel u g = Ok g' →
  length (verts g) = length (cols g) → Forall (λ c, c = curve_colour) (cols g) →
  length (verts g') = length (cols g') ∧ Forall (λ c, c = curve_colour) (cols g').
Proof.
  revert u g. induction fuel as [|fuel IH]; intros u g Hrun Hlen Hcol; [done|].
  simpl in Hrun. destruct (vget U (m + 1)) as [hi|]; [|done]. simpl in Hrun.
  destruct (fltb u hi).
  - destruct (curve_point E U k m u) as [p|]; [|done]. simpl in Hrun.
    apply IH in Hrun; [done| |]; simpl; unfold push_back.
    + rewrite !length_app. simpl. lia.
    + apply Forall_app. split; [done|]. by apply Forall_singleton.
  - by injection Hrun as <-.
Qed.

Lemma efficientBSpline_shape (fuel : nat) (E : list (vec3 F)) (U : list F)
    (M : list Z) (k m : Z) (u_inc : F) (g : CPU_Geometry F) :
  efficientBSpline fuel E U M k m u_inc = Ok g →
  length (verts g) = length (cols g) ∧ Forall (λ c, c = curve_colour) (cols g).
Proof.
  unfold efficientBSpline. destruct (vget U (k - 1)) as [u0|]; [|done].
  simpl. intros Hrun. by apply sample_loop_shape in Hrun.
Qed.

End Shape.

(** ** The frame *)

Lemma verase_in_range {A} (v : list A) (i : Z) :
  0 ≤ i < Z.of_nat (length v) → verase v i = Ok (delete (Z.to_nat i) v).
Proof. intros Hi. unfold verase. by rewrite decide_True. Qed.

Lemma length_delete_in_range {A} (v : list A) (i : nat) :
  (i < length v)%nat → length (delete i v) = (length v - 1)%nat.
Proof. intros Hi. by rewrite length_delete by by apply lookup_lt_is_Some_2. Qed.

Section Frame.
Context {F : Type} `{Scalar F} `{Length F}.

Lemma indexOfPointAtCursorPos_range (cb : MyCallbacks) (vs : list (vec3 F))
    (thr : F) :
  ∃ j, indexOfPointAtCursorPos cb vs thr = Ok j ∧ -1 ≤ j < Z.of_nat (length vs).
Proof.
  destruct (indexOfPointAtCursorPos_spec cb vs thr) as (j & Hj & Hcases).
  exists j. split; [done|]. destruct Hcases as [(Hr & _) | (-> & _)]; lia.
Qed.

(** The edit never faults and keeps the editor consistent, when the
    selection carried over from the frame before is inside the vertices
    while the left button is held. *)
Lemma edit_points_ok (cb : callbacks) (st : Editor F) :
  length (verts (cpuGeom st)) = length (cols (cpuGeom st)) →
  length (verts (curve st)) = length (cols (curve st)) →
  gpuGeom st = Uploaded (verts (cpuGeom st)) (cols (cpuGeom st)) →
  curveGPU st = Uploaded (verts (curve st)) (cols (curve st)) →
  (leftMouseJustPressed cb.2 = false → leftMouseActiveVal cb.2 = true →
   selectedPointIndex st < Z.of_nat (length (verts (cpuGeom st)))) →
  ∃ st', edit_points cb st = Ok st' ∧ editor_ok cb st' ∧
         curve st' = curve st ∧ degree_k st' = degree_k st ∧
         step_u_inc st' = step_u_inc st.
Proof.
  intros Hlen Hclen Hgpu Hcgpu Hsel. unfold edit_points, editor_ok.
  destruct (indexOfPointAtCursorPos_range cb.1 (verts (cpuGeom st)) (of_int 6))
    as (j & Hj & Hrange).
  destruct (leftMouseJustPressed cb.2) eqn:Hleft.
  { rewrite orb_true_l, Hj, bind_Ok. case_bool_decide as Hneg.
    - eexists. split; [done|]. simpl. unfold push_back.
      rewrite !length_app. simpl. repeat split; [lia | done.. | lia].
    - eexists. split; [done|]. simpl. repeat split; [done.. | lia]. }
  destruct (rightMouseJustPressed cb.2) eqn:Hright.
  { rewrite orb_true_r, Hj, bind_Ok. case_bool_decide as Hpos.
    - rewrite !verase_in_range by lia. rewrite !bind_Ok.
      eexists. split; [done|]. simpl.
      rewrite !length_delete_in_range by lia.
      repeat split; [lia | done.. | lia].
    - eexists. split; [done|]. simpl. repeat split; [done.. | lia]. }
  rewrite orb_false_l, bind_Ok. unfold leftMouseActive.
  destruct (leftMouseActiveVal cb.2) eqn:Hactive; simpl.
  - case_bool_decide as Hpos.
    + rewrite vset_in_range by (specialize (Hsel eq_refl eq_refl); lia).
      rewrite bind_Ok. eexists. split; [done|]. simpl.
      rewrite length_insert, Hgpu. simpl.
      repeat split; [done.. | by apply Hsel].
    + eexists. split; [done|]. simpl. repeat split; [done.. | by apply Hsel].
  - eexists. split; [done|]. simpl. repeat split; done.
Qed.

(** The widgets keep the editor consistent, when Clear is not reported
    while the left button is held. *)
Lemma widgets_ok (cb : callbacks) (ui : ImGuiFrame F) (st : Editor F) :
  (button_Clear ui = true → leftMouseActiveVal cb.2 = false) →
  editor_ok cb st → editor_ok cb (widgets ui st).
Proof.
  intros Hclear (Hlen & Hclen & Hgpu & Hcgpu & Hsel). unfold editor_ok, widgets.
  simpl. destruct (button_Clear ui); [|done].
  repeat split; [done..|]. intros Hactive. by rewrite Hclear in Hactive.
Qed.

(** If the curve can be computed, the editor stays consistent. *)
Lemma recompute_curve_ok (cb : callbacks) (fuel : nat) (st st' : Editor F) :
  recompute_curve fuel st = Ok st' → editor_ok cb st → editor_ok cb st'.
Proof.
  intros Hrun (Hlen & Hclen & Hgpu & Hcgpu & Hsel). unfold recompute_curve in Hrun.
  case_bool_decide; [|by injection Hrun as <-].
  destruct (standardKnot _ _) as [U|]; [|done]. simpl in Hrun.
  destruct (efficientBSpline _ _ _ _ _ _ _) as [c|] eqn:Hc; [|done].
  simpl in Hrun. injection Hrun as <-.
  apply efficientBSpline_shape in Hc as [Hc _].
  unfold editor_ok. simpl. done.
Qed.

End Frame.

(** ** The frame in exact arithmetic *)

Local Open Scope Qc_scope.

(** The curve after lines 326 to 337. *)
Lemma recompute_curve_exact (fuel : nat) (st : Editor Qc) :
  (2 ≤ degree_k st)%Z → 0 < step_u_inc st →
  (sample_count 0 1 (step_u_inc st) < fuel)%nat →
  ∃ st', recompute_curve fuel st = Ok st' ∧
    cpuGeom st' = cpuGeom st ∧ selectedPointIndex st' = selectedPointIndex st ∧
    ((length (verts (cpuGeom st)) ≤ 1)%nat → st' = st) ∧
    ((2 ≤ length (verts (cpuGeom st)))%nat →
     (Z.of_nat (length (verts (cpuGeom st))) < degree_k st)%Z →
     curve st' = Geometry [] []) ∧
    ((2 ≤ length (verts (cpuGeom st)))%nat →
     (degree_k st ≤ Z.of_nat (length (verts (cpuGeom st))))%Z →
     length (verts (curve st')) = sample_count 0 1 (step_u_inc st)).
Proof.
  intros Hk Hinc Hfuel. unfold recompute_curve.
  set (E := verts (cpuGeom st)). set (m := (Z.of_nat (length E) - 1)%Z).
  case_bool_decide as Hn.
  - rewrite standardKnot_closed, bind_Ok by lia.
    destruct (standard_domain (degree_k st) m) as [Hlo Hhi]; [lia..|].
    destruct (decide (m < degree_k st - 1)%Z) as [Hm|Hm].
    + simpl in Hhi. destruct fuel as [|fuel]; [lia|].
      rewrite (efficientBSpline_empty_domain fuel E _ [1%Z] _ m _ 0 0 Hlo Hhi)
        by done.
      rewrite bind_Ok. eexists. split; [done|]. simpl. unfold m in Hm.
      split; [done|]. split; [done|]. split; [intros; lia|].
      split; [done|]. intros; lia.
    + rewrite standard_run by (done || lia). rewrite bind_Ok.
      eexists. split; [done|]. simpl. unfold m in Hm.
      split; [done|]. split; [done|]. split; [intros; lia|].
      split; [intros; lia|]. intros _ _.
      by rewrite length_fmap, sample_params_length.
  - exists st. split; [done|]. split; [done|]. split; [done|]. split; [done|].
    split; intros; exfalso; lia.
Qed.

Lemma frame_ok (fuel : nat) (calls : list (callback_call Qc)) (ui : ImGuiFrame Qc)
    (cb : callbacks) (st : Editor Qc) :
  flags_ok cb.2 → editor_ok cb st → frame_input_ok fuel cb (calls, ui) →
  ∃ st', frame fuel calls ui (cb, st)
         = Ok (pollEvents calls (cb.1, incrementFrameCount cb.2), st') ∧
    flags_ok (pollEvents calls (cb.1, incrementFrameCount cb.2)).2 ∧
    editor_ok (pollEvents calls (cb.1, incrementFrameCount cb.2)) st'.
Proof.
  intros Hflags (Hlen & Hclen & Hgpu & Hcgpu & Hsel) (Hk & Hinc & Hfuel & Hclear).
  simpl in Hk, Hinc, Hfuel, Hclear. unfold frame. simpl.
  set (cb' := pollEvents calls (cb.1, incrementFrameCount cb.2)) in *.
  destruct (just_pressed_facts calls cb.1 cb.2 Hflags) as (Hleft & _ & Hflags').
  fold cb' in Hleft, Hflags'.
  destruct (edit_points_ok cb' st) as (st1 & Hedit & Hok1 & _); [done..| |].
  { intros Hnot Hactive. apply Hsel. rewrite Hleft in Hnot.
    by apply (pollEvents_left_active calls (cb.1, incrementFrameCount cb.2)). }
  rewrite Hedit, bind_Ok.
  pose proof (widgets_ok cb' ui st1 Hclear Hok1) as Hok2.
  destruct (recompute_curve_exact fuel (widgets ui st1)) as (st2 & Hrun & _);
    [done..|].
  rewrite Hrun, bind_Ok. exists st2. split; [done|]. split; [done|].
  by eapply recompute_curve_ok.
Qed.

Lemma frames_ok (fuel : nat)
    (inputs : list (list (callback_call Qc) * ImGuiFrame Qc))
    (cb : callbacks) (st : Editor Qc) :
  flags_ok cb.2 → editor_ok cb st → inputs_ok fuel cb inputs →
  ∃ s', frames fuel inputs (cb, st) = Ok s' ∧
        flags_ok s'.1.2 ∧ editor_ok s'.1 s'.2.
Proof.
  revert cb st. induction inputs as [|[calls ui] rest IH]; intros cb st Hf He Hin.
  - by exists (cb, st).
  - destruct Hin as [Hhead Hrest]. simpl in Hrest.
    destruct (frame_ok fuel calls ui cb st Hf He Hhead) as (st' & Hrun & Hf' & He').
    simpl frames. rewrite Hrun, bind_Ok. by apply IH.
Qed.

Local Close Scope Qc_scope.

(** ** What the frame does with a press *)

Section Presses.
Context {F : Type} `{Scalar F} `{Length F}.

(** What a left press does, for any state of the editor. *)
Lemma edit_points_left_press (cb : callbacks) (st : Editor F) :
  leftMouseJustPressed cb.2 = true →
  ∃ j st', indexOfPointAtCursorPos cb.1 (verts (cpuGeom st)) (of_int 6) = Ok j ∧
    edit_points cb st = Ok st' ∧ selectedPointIndex st' = j ∧
    (j < 0 →
     verts (cpuGeom st')
     = verts (cpuGeom st) ++ [vec3_of (getCursorPosGL cb.1) f0] ∧
     cols (cpuGeom st') = cols (cpuGeom st) ++ [point_colour]) ∧
    (0 ≤ j → cpuGeom st' = cpuGeom st).
Proof.
  intros Hleft.
  destruct (indexOfPointAtCursorPos_range cb.1 (verts (cpuGeom st)) (of_int 6))
    as (j & Hj & _).
  exists j. unfold edit_points. rewrite Hleft, orb_true_l, Hj, bind_Ok.
  case_bool_decide; eexists; (split; [done|]); (split; [done|]);
    (split; [done|]); split; simpl; (done || lia).
Qed.

(** X3: a left press that hits no control point appends the cursor's GL
    position (with z = 0) and the point colour, and leaves the selection at
    -1; a left press that hits one changes no vertex and selects the first
    point hit. A right press in the same frame is ignored. *)
Theorem left_press_adds_or_selects (cb : callbacks) (st : Editor F) :
  leftMouseJustPressed cb.2 = true →
  ∃ st', edit_points cb st = Ok st' ∧
    ((∀ v, v ∈ verts (cpuGeom st) → point_hit cb.1 (of_int 6) v = false) →
     verts (cpuGeom st')
     = verts (cpuGeom st) ++ [vec3_of (getCursorPosGL cb.1) f0] ∧
     cols (cpuGeom st') = cols (cpuGeom st) ++ [point_colour] ∧
     selectedPointIndex st' = -1) ∧
    (∀ v, v ∈ verts (cpuGeom st) → point_hit cb.1 (of_int 6) v = true →
     cpuGeom st' = cpuGeom st ∧
     ∃ w, vget (verts (cpuGeom st)) (selectedPointIndex st') = Ok w ∧
          point_hit cb.1 (of_int 6) w = true ∧
          ∀ l x, 0 ≤ l < selectedPointIndex st' →
                 vget (verts (cpuGeom st)) l = Ok x →
                 point_hit cb.1 (of_int 6) x = false).
Proof.
  intros Hleft.
  destruct (edit_points_left_press cb st Hleft)
    as (j & st' & Hj & Hedit & Hsel & Hadd & Hkeep).
  exists st'. split; [done|].
  destruct (indexOfPointAtCursorPos_spec cb.1 (verts (cpuGeom st)) (of_int 6))
    as (j' & Hj' & Hcases).
  rewrite Hj in Hj'. injection Hj' as <-.
  destruct Hcases as [(Hr & (w & Hw & Hhit) & Hbefore) | (-> & Hnone)].
  - split.
    + intros Hnone. rewrite (Hnone w) in Hhit; [done | by eapply vget_elem_of].
    + intros v _ _. split; [apply Hkeep; lia|]. rewrite Hsel. by exists w.
  - split.
    + intros _. destruct Hadd as [??]; [lia|]. done.
    + intros v Hv Hhit. by rewrite (Hnone v Hv) in Hhit.
Qed.

(** X4: a right press, in a frame without a left press, that hits a control
    point erases the first point hit and the colour at the same index and
    resets the selection to -1; one that hits none changes nothing. *)
Theorem right_press_erases_first_hit (cb : callbacks) (st : Editor F) :
  leftMouseJustPressed cb.2 = false → rightMouseJustPressed cb.2 = true →
  length (verts (cpuGeom st)) = length (cols (cpuGeom st)) →
  ∃ j st', indexOfPointAtCursorPos cb.1 (verts (cpuGeom st)) (of_int 6) = Ok j ∧
    edit_points cb st = Ok st' ∧ selectedPointIndex st' = -1 ∧
    (0 ≤ j →
     verts (cpuGeom st') = delete (Z.to_nat j) (verts (cpuGeom st)) ∧
     cols (cpuGeom st') = delete (Z.to_nat j) (cols (cpuGeom st))) ∧
    (j = -1 → cpuGeom st' = cpuGeom st).
Proof.
  intros Hleft Hright Hlen.
  destruct (indexOfPointAtCursorPos_range cb.1 (verts (cpuGeom st)) (of_int 6))
    as (j & Hj & Hrange).
  exists j. unfold edit_points. rewrite Hleft, Hright, orb_true_r, Hj, bind_Ok.
  case_bool_decide.
  - rewrite !verase_in_range, !bind_Ok by lia.
    eexists. split; [done|]. split; [done|]. split; [done|].
    split; simpl; (done || lia).
  - eexists. split; [done|]. split; [done|]. split; [simpl; lia|].
    split; simpl; (done || lia).
Qed.

(** X5: a drag ends with the release, also when ImGui wants the mouse: if
    the calls of a frame hold a left release with no left press after it
    that ImGui did not keep, the left button is not held afterwards. *)
Theorem release_ends_the_drag (before after : list (callback_call F))
    (mods : Z) (want : bool) (cb : callbacks) :
  existsb is_left_press after = false →
  leftMouseActiveVal
    (pollEvents
       (before ++ MouseButtonCall GLFW_MOUSE_BUTTON_LEFT GLFW_RELEASE mods want
               :: after) cb).2 = false.
Proof.
  intros Hafter. unfold pollEvents. rewrite foldl_app. simpl.
  set (cb1 := foldl dispatch cb before).
  apply not_true_is_false. intros Hactive.
  apply (pollEvents_left_active after) in Hactive; [|done].
  simpl in Hactive. by destruct want.
Qed.

End Presses.

(** ** Exact arithmetic: the hit test and the conversions together *)

Local Open Scope Qc_scope.

Lemma Qc_length_zero (t : Qc) :
  0 < t → length_below (Vec3 (0 : Qc) 0 0) t = true.
Proof.
  intros Ht. unfold length_below, Qc_length. simpl.
  apply andb_true_iff. split; apply Qcltb_lt; [done|].
  replace (0 * 0 + 0 * 0 + 0 * 0) with (0 : Qc) by ring.
  by apply Qcmult_pos_pos.
Qed.

(** The point placed at the cursor is hit at the same cursor position. *)
Lemma placed_point_is_hit (cb : MyCallbacks) (t : Qc) :
  (0 < screenWidth cb)%Z → (0 < screenHeight cb)%Z → 0 < t →
  point_hit cb t (vec3_of (getCursorPosGL cb) f0) = true.
Proof.
  intros Hw Hh Ht. unfold point_hit.
  replace (vec2_of (vec3_of (getCursorPosGL cb) f0)) with (getCursorPosGL cb)
    by by destruct (getCursorPosGL cb).
  rewrite screen_gl_screen_centre by done.
  unfold vec3_of, v3sub, half, f0_5. simpl. qc_ops.
  rewrite Z2Qc_inj_0, Z2Qc_inj_1.
  replace (screenMouseX cb + 1 / Qc_of_Z 2 - (screenMouseX cb + 1 / Qc_of_Z 2))
    with (0 : Qc) by ring.
  replace (screenMouseY cb + 1 / Qc_of_Z 2 - (screenMouseY cb + 1 / Qc_of_Z 2))
    with (0 : Qc) by ring.
  replace (0 - 0) with (0 : Qc) by ring.
  by apply Qc_length_zero.
Qed.

(** X6: the cursor read in GL space with [getCursorPosGL] and sent back to
    the screen with [glPosToScreenCoords] is the centre of the cursor's
    pixel, [(x + 1/2, y + 1/2)], for window dimensions [w, h > 0]. *)
Theorem cursor_to_gl_and_back_is_pixel_centre (cb : MyCallbacks (F := Qc)) :
  (0 < screenWidth cb)%Z → (0 < screenHeight cb)%Z →
  glPosToScreenCoords cb (getCursorPosGL cb)
  = Vec2 (screenMouseX cb + 1 / Qc_of_Z 2) (screenMouseY cb + 1 / Qc_of_Z 2).
Proof. intros Hw Hh. by apply screen_gl_screen_centre. Qed.

Lemma cursor_to_gl_and_back_is_pixel_centre_witness :
  glPosToScreenCoords window_800 (getCursorPosGL window_800)
  = Vec2 (screenMouseX window_800 + 1 / Qc_of_Z 2)
         (screenMouseY window_800 + 1 / Qc_of_Z 2).
Proof.
  apply (cursor_to_gl_and_back_is_pixel_centre window_800); reflexivity.
Defined.

(** X7: a second left press at the same cursor position adds nothing: the
    point the first press placed (or the point it selected) is hit, so the
    vertices stay as the first press left them. Threshold 6, window
    dimensions [w, h > 0]. *)
Theorem second_press_adds_nothing (cb cb2 : callbacks) (st st1 : Editor Qc) :
  (0 < screenWidth cb.1)%Z → (0 < screenHeight cb.1)%Z →
  leftMouseJustPressed cb.2 = true → leftMouseJustPressed cb2.2 = true →
  cb2.1 = cb.1 →
  edit_points cb st = Ok st1 →
  ∃ st2, edit_points cb2 st1 = Ok st2 ∧ cpuGeom st2 = cpuGeom st1 ∧
         (0 ≤ selectedPointIndex st2
          < Z.of_nat (length (verts (cpuGeom st1))))%Z.
Proof.
  intros Hw Hh Hleft Hleft2 Hview Hedit.
  assert (Hthr : 0 < Qc_of_Z 6) by by apply Qc_of_Z_pos.
  assert (Hhit : ∃ v, v ∈ verts (cpuGeom st1) ∧ point_hit cb.1 (of_int 6) v = true).
  { destruct (edit_points_left_press cb st Hleft)
      as (j & st' & Hj & Hedit' & Hsel & Hadd & Hkeep).
    rewrite Hedit in Hedit'. injection Hedit' as <-.
    destruct (indexOfPointAtCursorPos_spec cb.1 (verts (cpuGeom st)) (of_int 6))
      as (j' & Hj' & Hcases).
    rewrite Hj in Hj'. injection Hj' as <-.
    destruct Hcases as [(Hr & (w & Hw' & Hwhit) & _) | (-> & _)].
    - exists w. rewrite Hkeep by lia. split; [by eapply vget_elem_of | done].
    - destruct Hadd as [-> _]; [lia|].
      exists (vec3_of (getCursorPosGL cb.1) f0).
      split; [apply elem_of_app; right; by apply list_elem_of_singleton|].
      by apply placed_point_is_hit. }
  destruct Hhit as (v & Hv & Hvhit).
  destruct (edit_points_left_press cb2 st1 Hleft2)
    as (j & st2 & Hj & Hedit2 & Hsel & _ & Hkeep).
  rewrite Hview in Hj.
  destruct (indexOfPointAtCursorPos_spec cb.1 (verts (cpuGeom st1)) (of_int 6))
    as (j' & Hj' & Hcases).
  rewrite Hj in Hj'. injection Hj' as <-.
  destruct Hcases as [(Hr & _) | (-> & Hnone)].
  - exists st2. split; [done|]. split; [apply Hkeep; lia|]. by rewrite Hsel.
  - by rewrite (Hnone v Hv) in Hvhit.
Qed.

(** ** The render loop *)

(** X9: the render loop never reads or writes outside a vector. From a
    consistent editor, over any number of frames whose sliders leave
    [k >= 2] and [u_inc > 0] and in which Clear is not reported while the
    left button is held, every frame returns, and afterwards vertices and
    colours have equal lengths (control points and curve), the uploads equal
    the vectors, the selection is inside the vertices while the left button
    is held, and the frame flags are behind the frame counter. *)
Theorem frames_never_fault (fuel : nat)
    (inputs : list (list (callback_call Qc) * ImGuiFrame Qc))
    (cb : callbacks) (st : Editor Qc) :
  flags_ok cb.2 → editor_ok cb st → inputs_ok fuel cb inputs →
  ∃ s', frames fuel inputs (cb, st) = Ok s' ∧
        flags_ok s'.1.2 ∧ editor_ok s'.1 s'.2.
Proof. apply frames_ok. Qed.

Local Close Scope Qc_scope.

(** ** Dragging, and Clear *)

Section Dragging.
Context {F : Type} `{Scalar F} `{Length F}.

(** Calls other than [mouseButtonCallback] leave the mouse flags alone. *)
Lemma pollEvents_no_button (calls : list (callback_call F)) (cb : callbacks) :
  existsb is_mouse_button calls = false → (pollEvents calls cb).2 = cb.2.
Proof.
  revert cb. induction calls as [|c calls IH]; intros cb; simpl; [done|].
  intros [Hc Hrest]%orb_false_iff. rewrite IH by done. by destruct c.
Qed.

(** Without a press in the frame, a held button and a selection [>= 0] lead
    to the write [cpuGeom.verts[selectedPointIndex] = ...]. *)
Lemma edit_points_drag (cb : callbacks) (st : Editor F) :
  leftMouseJustPressed cb.2 = false → rightMouseJustPressed cb.2 = false →
  leftMouseActive cb.2 = true → 0 ≤ selectedPointIndex st →
  edit_points cb st
  = (vs ← vset (verts (cpuGeom st)) (selectedPointIndex st)
             (vec3_of (getCursorPosGL cb.1) f0);
     Ok (with_points st (Geometry vs (cols (cpuGeom st)))
           (Uploaded vs (gpu_cols (gpuGeom st))) (selectedPointIndex st))).
Proof.
  intros Hl Hr Ha Hs. unfold edit_points. rewrite Hl, Hr, Ha. simpl.
  by rewrite bool_decide_eq_true_2 by done.
Qed.

(** What lines 326 to 337 have done when they return. *)
Lemma recompute_curve_Ok (fuel : nat) (st st' : Editor F) :
  recompute_curve fuel st = Ok st' →
  cpuGeom st' = cpuGeom st ∧ selectedPointIndex st' = selectedPointIndex st ∧
  ((length (verts (cpuGeom st)) ≤ 1)%nat → st' = st) ∧
  ((2 ≤ length (verts (cpuGeom st)))%nat →
   ∃ U, standardKnot (degree_k st) (Z.of_nat (length (verts (cpuGeom st))) - 1)
        = Ok U ∧
        efficientBSpline fuel (verts (cpuGeom st)) U [1] (degree_k st)
          (Z.of_nat (length (verts (cpuGeom st))) - 1) (step_u_inc st)
        = Ok (curve st') ∧
        curveGPU st' = Uploaded (verts (curve st')) (cols (curve st'))).
Proof.
  unfold recompute_curve. case_bool_decide as Hn.
  - destruct (standardKnot _ _) as [U|] eqn:HU; [|done]. rewrite bind_Ok.
    destruct (efficientBSpline _ _ _ _ _ _ _) as [c|] eqn:Hc; [|done].
    rewrite bind_Ok. intros [= <-]. simpl.
    split; [done|]. split; [done|]. split; [intros; lia|].
    intros _. exists U. by rewrite Hc.
  - intros [= <-]. split; [done|]. split; [done|]. split; [done|]. intros; lia.
Qed.

(** A frame in which Clear is reported ends with no control point and with
    the selection the edit of that frame left. *)
Lemma frame_with_Clear (fuel : nat) (calls : list (callback_call F))
    (ui : ImGuiFrame F) (s s1 : callbacks * Editor F) :
  button_Clear ui = true → frame fuel calls ui s = Ok s1 →
  s1.1 = pollEvents calls (s.1.1, incrementFrameCount s.1.2) ∧
  cpuGeom s1.2 = Geometry [] [] ∧ curve s1.2 = Geometry [] [].
Proof.
  intros Hclear Hrun. unfold frame in Hrun.
  destruct (edit_points _ _) as [st1|]; [|done]. rewrite bind_Ok in Hrun.
  unfold recompute_curve, widgets in Hrun. rewrite Hclear in Hrun.
  simpl in Hrun. injection Hrun as <-. done.
Qed.

(** X18: Clear empties the control points but does not reset the selection:
    if Clear is reported in a frame after which the left button is held and
    a point is selected, the next frame, when it brings no mouse button
    call, writes [cpuGeom.verts[selectedPointIndex]] outside the (empty)
    vector. *)
Theorem drag_after_Clear_is_out_of_bounds (fuel : nat)
    (calls calls' : list (callback_call F)) (ui ui' : ImGuiFrame F)
    (s s1 : callbacks * Editor F) :
  flags_ok s.1.2 →
  button_Clear ui = true →
  frame fuel calls ui s = Ok s1 →
  leftMouseActiveVal s1.1.2 = true → 0 ≤ selectedPointIndex s1.2 →
  existsb is_mouse_button calls' = false →
  frame fuel calls' ui' s1 = Fault OutOfBounds.
Proof.
  intros Hflags Hclear Hrun Hheld Hsel Hcalls.
  destruct (frame_with_Clear _ _ _ _ _ Hclear Hrun) as (Hcb & Hgeom & _).
  assert (Hflags1 : flags_ok s1.1.2).
  { rewrite Hcb. by apply just_pressed_facts. }
  destruct (increment_not_just_pressed _ Hflags1) as [Hl Hr].
  unfold frame.
  set (cb' := pollEvents calls' (s1.1.1, incrementFrameCount s1.1.2)).
  assert (Hms : cb'.2 = incrementFrameCount s1.1.2)
    by by apply pollEvents_no_button.
  rewrite edit_points_drag; [|by rewrite Hms..|done].
  rewrite Hgeom. simpl. unfold vset. by rewrite decide_False by (simpl; lia).
Qed.

End Dragging.

(** ** A frame of dragging, in exact arithmetic *)

Local Open Scope Qc_scope.

(** X17: a frame of dragging. In a frame without a press, with the left
    button held after the events, the selection inside the control points,
    no Clear, [k >= 2] and [u_inc > 0], the frame returns; the selected
    control point is replaced by the cursor's GL position (z = 0) as it is
    after the events of the frame; the other control points, the colours
    and the selection stay; and the curve is computed anew from the moved
    control points: with at least two of them it is what [efficientBSpline]
    returns for them on their standard knots. *)
Theorem drag_moves_the_selected_point (fuel : nat)
    (calls : list (callback_call Qc)) (ui : ImGuiFrame Qc)
    (cb : callbacks) (st : Editor Qc) :
  let cb' := pollEvents calls (cb.1, incrementFrameCount cb.2) in
  let E' := <[Z.to_nat (selectedPointIndex st)
              := vec3_of (getCursorPosGL cb'.1) f0]> (verts (cpuGeom st)) in
  flags_ok cb.2 →
  existsb is_left_press calls = false → existsb is_right_press calls = false →
  leftMouseActiveVal cb'.2 = true →
  (0 ≤ selectedPointIndex st < Z.of_nat (length (verts (cpuGeom st))))%Z →
  button_Clear ui = false → (2 ≤ slider_k ui)%Z → 0 < slider_u_increment ui →
  (sample_count 0 1 (slider_u_increment ui) < fuel)%nat →
  ∃ st', frame fuel calls ui (cb, st) = Ok (cb', st') ∧
    verts (cpuGeom st') = E' ∧
    cols (cpuGeom st') = cols (cpuGeom st) ∧
    selectedPointIndex st' = selectedPointIndex st ∧
    ((length E' ≤ 1)%nat → curve st' = curve st) ∧
    ((2 ≤ length E')%nat →
     ∃ U, standardKnot (slider_k ui) (Z.of_nat (length E') - 1) = Ok U ∧
          efficientBSpline fuel E' U [1%Z] (slider_k ui)
            (Z.of_nat (length E') - 1) (slider_u_increment ui)
          = Ok (curve st')).
Proof.
  intros cb' E' Hflags Hnoleft Hnoright Hheld Hsel Hclear Hk Hinc Hfuel.
  destruct (just_pressed_facts calls cb.1 cb.2 Hflags) as (Hleft & Hright & _).
  fold cb' in Hleft, Hright. rewrite Hnoleft in Hleft. rewrite Hnoright in Hright.
  unfold frame. cbn [fst snd]. fold cb'.
  rewrite edit_points_drag by (done || lia).
  rewrite vset_in_range by done. fold E'. rewrite bind_Ok.
  set (st1 := with_points st _ _ _). rewrite bind_Ok.
  destruct (recompute_curve_exact fuel (widgets ui st1)) as (st2 & Hrun & _);
    [done..|].
  rewrite Hrun, bind_Ok. exists st2. split; [done|].
  destruct (recompute_curve_Ok _ _ _ Hrun) as (Hgeom & Hselect & Hone & Hmany).
  unfold widgets in Hgeom, Hselect, Hone, Hmany. rewrite Hclear in *.
  cbn [cpuGeom curve selectedPointIndex degree_k step_u_inc st1 with_points
       verts cols] in Hgeom, Hselect, Hone, Hmany.
  rewrite Hgeom, Hselect. split; [done|]. split; [done|]. split; [done|].
  split.
  - intros Hlen. by rewrite (Hone Hlen).
  - intros Hlen. destruct (Hmany Hlen) as (U & HU & Hc & _). by exists U.
Qed.

Local Close Scope Qc_scope.

(** * Part VI: more on the curve evaluation, in exact arithmetic *)

Local Open Scope Qc_scope.

Lemma vread_negative {A} (dflt : A) (v : list A) (i : Z) :
  (i < 0)%Z → vread dflt v i = dflt.
Proof. intros Hi. unfold vread, vget. by rewrite decide_False by lia. Qed.

Lemma vread_cons_succ {A} (dflt a b : A) (v : list A) (i : Z) :
  (1 ≤ i)%Z → vread dflt (a :: v) i = vread dflt (b :: v) i.
Proof.
  intros Hi. unfold vread, vget. case_decide; [|done].
  replace (Z.to_nat i) with (S (Z.to_nat (i - 1))) by lia. done.
Qed.

Lemma vread_fmap {A B} (f : A → B) (da : A) (db : B) (v : list A) (i : Z) :
  (0 ≤ i < Z.of_nat (length v))%Z → vread db (f <$> v) i = f (vread da v i).
Proof.
  intros Hi. destruct (vget_in_range v i Hi) as [a Ha].
  rewrite (vread_Ok da v i a Ha). apply vread_Ok. by rewrite vget_fmap, Ha.
Qed.

Lemma Qcdiv_lt_mono (a b c : Qc) : 0 < c → a < b → a / c < b / c.
Proof.
  intros Hc Hab. unfold Qcdiv. apply Qcmult_lt_mono_pos_r; [|done].
  by apply Qcinv_pos.
Qed.

Lemma knot_value_pos (k m i : Z) :
  (k - 1 ≤ m)%Z → (k ≤ i)%Z → 0 < knot_value k m i.
Proof.
  intros Hm Hi. destruct (decide (i < m + 1)%Z).
  - rewrite knot_value_mid by lia.
    assert (Hn : 0 < Qc_of_Z (m - k + 2)) by (apply Qc_of_Z_pos; lia).
    replace 0 with (0 / Qc_of_Z (m - k + 2))
      by (field; by apply Qc_of_Z_nonzero; lia).
    apply Qcdiv_lt_mono; [done|]. apply Qc_of_Z_pos. lia.
  - by rewrite knot_value_high by lia.
Qed.

Lemma sample_count_pos (u_inc : Qc) : 0 < u_inc → (1 ≤ sample_count 0 1 u_inc)%nat.
Proof.
  intros Hinc. pose proof (sample_count_stop 0 1 u_inc Hinc) as Hstop.
  destruct (sample_count 0 1 u_inc); [|lia].
  change (Z.of_nat 0) with 0%Z in Hstop. exfalso. qc_lra.
Qed.

(** ** The first vertex *)

Lemma blend_first_weight (P Q : vec3 Qc) (x : Qc) :
  v3add (v3scale (fdiv (fsub 0 0) x) P)
        (v3scale (fsub f1 (fdiv (fsub 0 0) x)) Q) = Q.
Proof.
  destruct P, Q. unfold v3add, v3scale. simpl. qc_ops. rewrite Z2Qc_inj_1.
  unfold Qcdiv. f_equal; ring.
Qed.

(** At the start of the domain every weight is 0 and each level of the
    triangle is the level before, one index down. *)
Lemma deBoor_point_at_start (k m : Z) (E : list (vec3 Qc)) (t : nat) (j : Z) :
  (1 ≤ k)%Z → (0 ≤ m + 1)%Z → (j ≤ k - 1)%Z →
  deBoor_point E (standard_knots k m) k 0 t j = vread origin E (j - Z.of_nat t).
Proof.
  intros Hk Hm. revert j. induction t as [|t IH]; intros j Hj.
  - simpl. f_equal. lia.
  - assert (Hzero : vread f0 (standard_knots k m) j = 0).
    { destruct (decide (0 ≤ j)%Z).
      - apply vread_Ok. rewrite standard_vget by lia. by rewrite knot_value_low by lia.
      - rewrite vread_negative by lia. apply Z2Qc_inj_0. }
    cbn [deBoor_point]. rewrite Hzero, blend_first_weight, IH by lia.
    f_equal. lia.
Qed.

(** X10: on standard knots with at least [k] control points the first
    vertex [efficientBSpline] returns is the second control point, [E[1]],
    for every [k >= 2] and every step. *)
Theorem first_vertex_is_second_control_point (k m : Z) (E : list (vec3 Qc))
    (M : list Z) (U : list Qc) (u_inc : Qc) (fuel : nat) :
  (2 ≤ k)%Z → (k - 1 ≤ m)%Z → (m + 1 ≤ Z.of_nat (length E))%Z →
  standardKnot k m = Ok U → 0 < u_inc →
  (sample_count 0 1 u_inc < fuel)%nat →
  ∃ g p rest, efficientBSpline fuel E U M k m u_inc = Ok g ∧
              verts g = p :: rest ∧ vget E 1 = Ok p.
Proof.
  intros Hk Hm HE HU Hinc Hfuel.
  rewrite standardKnot_closed in HU by lia. injection HU as <-.
  rewrite standard_run by done.
  pose proof (sample_count_pos u_inc Hinc) as Hpos.
  destruct (sample_count 0 1 u_inc) as [|n] eqn:Hn; [lia|].
  rewrite sample_params_S, fmap_cons.
  eexists. eexists. eexists. split; [done|]. split; [done|]. simpl.
  destruct (standard_curve_point k m E 0) as (d & Hd & Hrange & Hin & _);
    [done.. | by apply Qc_of_Z_pos |].
  unfold span_index. rewrite Hd.
  apply standard_in_span in Hin as (_ & Hle & _).
  assert (d = k - 1)%Z as ->.
  { destruct (decide (k ≤ d)%Z); [|lia].
    pose proof (knot_value_pos k m d Hm ltac:(done)) as Hp.
    exfalso. by apply (Qclt_not_le _ _ Hp). }
  rewrite blended_point_deBoor_level, deBoor_point_at_start by lia.
  replace (k - 1 - Z.of_nat (Z.to_nat (k - 2)))%Z with 1%Z by lia.
  apply vget_vread. lia.
Qed.

Lemma first_vertex_is_second_control_point_witness :
  ∃ g p rest, efficientBSpline 10 three_points knots_3_2 [1%Z] 3 2 half = Ok g ∧
              verts g = p :: rest ∧ vget three_points 1 = Ok p.
Proof.
  apply (first_vertex_is_second_control_point 3 2 three_points [1%Z] knots_3_2 half 10);
    [lia | lia | simpl; lia | reflexivity | by vm_compute | vm_compute; lia].
Defined.

(** ** The first control point *)

Lemma deBoor_point_ignores_first (P P' : vec3 Qc) (E : list (vec3 Qc))
    (U : list Qc) (k : Z) (u : Qc) (t : nat) (j : Z) :
  (1 ≤ j - Z.of_nat t)%Z →
  deBoor_point (P :: E) U k u t j = deBoor_point (P' :: E) U k u t j.
Proof.
  revert j. induction t as [|t IH]; intros j Hj.
  - simpl. apply vread_cons_succ. lia.
  - cbn [deBoor_point]. by rewrite (IH j), (IH (j - 1)%Z) by lia.
Qed.

(** X11: the first control point has no part in the curve: on standard
    knots, [efficientBSpline] returns the same result whatever [E[0]] is. *)
Theorem first_control_point_is_ignored (k : Z) (P P' : vec3 Qc)
    (E : list (vec3 Qc)) (M : list Z) (U : list Qc) (u_inc : Qc) (fuel : nat) :
  (2 ≤ k)%Z → (1 ≤ length E)%nat → 0 < u_inc →
  standardKnot k (Z.of_nat (length E)) = Ok U →
  (sample_count 0 1 u_inc < fuel)%nat →
  efficientBSpline fuel (P :: E) U M k (Z.of_nat (length E)) u_inc
  = efficientBSpline fuel (P' :: E) U M k (Z.of_nat (length E)) u_inc.
Proof.
  intros Hk HE Hinc HU Hfuel. set (m := Z.of_nat (length E)) in *.
  rewrite standardKnot_closed in HU by lia. injection HU as <-.
  destruct (decide (m < k - 1)%Z) as [Hm|Hm].
  - destruct (standard_domain k m) as [Hlo Hhi]; [lia..|].
    rewrite decide_True in Hhi by done.
    destruct fuel as [|fuel]; [lia|].
    by rewrite !(efficientBSpline_empty_domain fuel _ _ M k m u_inc 0 0 Hlo Hhi).
  - rewrite !standard_run by (done || simpl; lia).
    do 2 f_equal. apply list_fmap_ext. intros i v Hv.
    apply list_elem_of_lookup_2, list_elem_of_In in Hv.
    pose proof (sample_count_below 0 1 u_inc Hinc) as Hall.
    rewrite Forall_forall in Hall. destruct (Hall v Hv) as [H0 H1].
    destruct (standard_delta k m v) as (d & Hd & Hrange & _); [lia..|done|done|].
    unfold span_index. rewrite Hd.
    rewrite !blended_point_deBoor_level by lia.
    apply deBoor_point_ignores_first. lia.
Qed.

Lemma first_control_point_is_ignored_witness :
  efficientBSpline 10 (pt3 0 0 0 :: [pt3 1 0 0; pt3 1 1 0]) knots_3_2 [1%Z] 3
    (Z.of_nat (length [pt3 1 0 0; pt3 1 1 0])) half
  = efficientBSpline 10 (pt3 7 7 7 :: [pt3 1 0 0; pt3 1 1 0]) knots_3_2 [1%Z] 3
      (Z.of_nat (length [pt3 1 0 0; pt3 1 1 0])) half.
Proof.
  apply (first_control_point_is_ignored 3 (pt3 0 0 0) (pt3 7 7 7)
           [pt3 1 0 0; pt3 1 1 0] [1%Z] knots_3_2 half 10);
    [lia | simpl; lia | by vm_compute | reflexivity | vm_compute; lia].
Defined.

(** ** Moving all control points *)

Lemma blend_translate (a : Qc) (t x y : vec3 Qc) :
  v3add (v3scale a (translate t x)) (v3scale (fsub f1 a) (translate t y))
  = translate t (v3add (v3scale a x) (v3scale (fsub f1 a) y)).
Proof.
  destruct t, x, y. unfold translate, v3add, v3scale. simpl. qc_ops.
  rewrite Z2Qc_inj_1. f_equal; ring.
Qed.

Lemma deBoor_point_translate (t : vec3 Qc) (E : list (vec3 Qc)) (U : list Qc)
    (k : Z) (u : Qc) (r : nat) (j : Z) :
  (0 ≤ j - Z.of_nat r)%Z → (j < Z.of_nat (length E))%Z →
  deBoor_point (translate t <$> E) U k u r j
  = translate t (deBoor_point E U k u r j).
Proof.
  revert j. induction r as [|r IH]; intros j Hlo Hhi.
  - simpl. apply vread_fmap. lia.
  - cbn [deBoor_point]. rewrite (IH j), (IH (j - 1)%Z) by lia.
    apply blend_translate.
Qed.

(** X12: moving every control point by the same vector moves every vertex
    of the curve by that vector and changes nothing else (standard knots,
    [k >= 2], at least two control points). *)
Theorem curve_follows_translation (k : Z) (t : vec3 Qc) (E : list (vec3 Qc))
    (M : list Z) (U : list Qc) (u_inc : Qc) (fuel : nat) :
  (2 ≤ k)%Z → (2 ≤ length E)%nat → 0 < u_inc →
  standardKnot k (Z.of_nat (length E) - 1) = Ok U →
  (sample_count 0 1 u_inc < fuel)%nat →
  ∃ g, efficientBSpline fuel E U M k (Z.of_nat (length E) - 1) u_inc = Ok g ∧
       efficientBSpline fuel (translate t <$> E) U M k
         (Z.of_nat (length E) - 1) u_inc
       = Ok (Geometry (translate t <$> verts g) (cols g)).
Proof.
  intros Hk HE Hinc HU Hfuel. set (m := (Z.of_nat (length E) - 1)%Z) in *.
  rewrite standardKnot_closed in HU by lia. injection HU as <-.
  destruct (decide (m < k - 1)%Z) as [Hm|Hm].
  - destruct (standard_domain k m) as [Hlo Hhi]; [lia..|].
    rewrite decide_True in Hhi by done.
    destruct fuel as [|fuel]; [lia|].
    rewrite !(efficientBSpline_empty_domain fuel _ _ M k m u_inc 0 0 Hlo Hhi)
      by done.
    by eexists.
  - rewrite !standard_run by (done || rewrite ?length_fmap; lia).
    eexists. split; [done|]. simpl. do 2 f_equal.
    rewrite <-list_fmap_compose. apply list_fmap_ext. intros i v Hv.
    apply list_elem_of_lookup_2, list_elem_of_In in Hv.
    pose proof (sample_count_below 0 1 u_inc Hinc) as Hall.
    rewrite Forall_forall in Hall. destruct (Hall v Hv) as [H0 H1].
    destruct (standard_delta k m v) as (d & Hd & Hrange & _); [lia..|done|done|].
    unfold compose. cbv beta. unfold span_index. rewrite Hd.
    rewrite !blended_point_deBoor_level by lia.
    apply deBoor_point_translate; lia.
Qed.

Lemma curve_follows_translation_witness :
  ∃ g, efficientBSpline 10 three_points knots_3_2 [1%Z] 3
         (Z.of_nat (length three_points) - 1) half = Ok g ∧
       efficientBSpline 10 (translate (pt3 5 5 0) <$> three_points) knots_3_2 [1%Z] 3
         (Z.of_nat (length three_points) - 1) half
       = Ok (Geometry (translate (pt3 5 5 0) <$> verts g) (cols g)).
Proof.
  apply (curve_follows_translation 3 (pt3 5 5 0) three_points [1%Z] knots_3_2 half 10);
    [lia | simpl; lia | by vm_compute | reflexivity | vm_compute; lia].
Defined.

(** ** standardKnot with few control points *)

(** X13: with [m + 1 <= k] control points ([-1 <= m <= k - 1]) the knot
    vector is [k] zeros followed by [m + 1] ones; no interior knot is made
    and the spacing is not used. *)
Theorem standardKnot_few_points (k m : Z) :
  (1 ≤ k)%Z → (-1 ≤ m ≤ k - 1)%Z →
  standardKnot k m
  = Ok (replicate (Z.to_nat k) (0 : Qc) ++ replicate (Z.to_nat (m + 1)) (1 : Qc)).
Proof.
  intros Hk Hm. rewrite standardKnot_closed by lia. f_equal.
  unfold standard_knots.
  replace (m + k + 1)%Z with (k + (m + 1))%Z by lia.
  rewrite seqZ_app, fmap_app by lia. f_equal.
  - rewrite <-(length_seqZ 0 k). apply fmap_const_replicate.
    apply Forall_seqZ. intros i Hi. apply knot_value_low. lia.
  - rewrite <-(length_seqZ (0 + k) (m + 1)). apply fmap_const_replicate.
    apply Forall_seqZ. intros i Hi. apply knot_value_high; lia.
Qed.

Lemma standardKnot_few_points_witness :
  standardKnot 4 1
  = Ok (replicate (Z.to_nat 4) (0 : Qc) ++ replicate (Z.to_nat (1 + 1)) (1 : Qc)).
Proof. apply (standardKnot_few_points 4 1); lia. Defined.

(** ** delta outside the knots *)

Lemma delta_before_first_knot (U : list Qc) (u first : Qc) (k m : Z) :
  Z.of_nat (length U) = (m + k + 1)%Z →
  (∀ j x y, vget U j = Ok x → vget U (j + 1) = Ok y → x ≤ y) →
  vget U 0 = Ok first → u < first →
  delta U u k m = Ok (-1)%Z.
Proof.
  intros Hlen Hadj Hfirst Hu. unfold delta.
  destruct (delta_loop_spec U u (Z.to_nat (m + k - 1)) 0) as (j & Hj & Hcases);
    [lia | lia |].
  destruct Hcases as [(Hr & Hin & _) | (-> & _)]; [|done].
  apply in_span_true in Hin as (a & b & Ha & _ & Hle & _). qc_ops.
  apply Qcleb_le in Hle. exfalso.
  apply (Qclt_not_le u first); [done|].
  apply Qcle_trans with a; [|done].
  apply (adjacent_le U (Z.to_nat j) 0 first a Hadj Hfirst).
  by replace (0 + Z.of_nat (Z.to_nat j))%Z with j by lia.
Qed.

(** X14: on a non-decreasing knot vector of length [m+k+1], [delta]
    returns the sentinel -1 for every parameter below the first knot and
    for every parameter at or beyond the last knot. *)
Theorem delta_outside_the_knots (U : list Qc) (u first last : Qc) (k m : Z) :
  Z.of_nat (length U) = (m + k + 1)%Z →
  (∀ j x y, vget U j = Ok x → vget U (j + 1) = Ok y → x ≤ y) →
  vget U 0 = Ok first → vget U (m + k) = Ok last →
  u < first ∨ last ≤ u →
  delta U u k m = Ok (-1)%Z.
Proof.
  intros Hlen Hadj Hfirst Hlast [Hu|Hu].
  - by eapply delta_before_first_knot.
  - by eapply delta_beyond_last_knot.
Qed.

Lemma knots_2_1_adjacent (j : Z) (x y : Qc) :
  vget knots_2_1 j = Ok x → vget knots_2_1 (j + 1) = Ok y → x ≤ y.
Proof.
  intros Hx Hy. pose proof (vget_Ok_range _ _ _ Hy) as Hr. simpl in Hr.
  pose proof (vget_Ok_range _ _ _ Hx) as Hr'.
  assert (Hj : (j = 0 ∨ j = 1 ∨ j = 2)%Z) by lia.
  destruct Hj as [-> | [-> | ->]];
    injection Hx as <-; injection Hy as <-; by vm_compute.
Defined.

Lemma delta_outside_the_knots_witness : delta knots_2_1 (Qc_of_Z 1) 2 1 = Ok (-1)%Z.
Proof.
  apply (delta_outside_the_knots knots_2_1 (Qc_of_Z 1) (Qc_of_Z 0) (Qc_of_Z 1) 2 1);
    [reflexivity | exact knots_2_1_adjacent | reflexivity | reflexivity
     | right; by vm_compute].
Defined.

(** ** The cursor in GL space *)

(** X15: a cursor on a pixel of the window, [0 <= x <= w - 1] and
    [0 <= y <= h - 1], is read by [getCursorPosGL] strictly inside the
    square [(-1, 1) x (-1, 1)]. *)
Theorem getCursorPosGL_inside_square (cb : MyCallbacks (F := Qc)) :
  (0 < screenWidth cb)%Z → (0 < screenHeight cb)%Z →
  0 ≤ screenMouseX cb → screenMouseX cb ≤ Qc_of_Z (screenWidth cb - 1) →
  0 ≤ screenMouseY cb → screenMouseY cb ≤ Qc_of_Z (screenHeight cb - 1) →
  -1 < x2 (getCursorPosGL cb) ∧ x2 (getCursorPosGL cb) < 1 ∧
  -1 < y2 (getCursorPosGL cb) ∧ y2 (getCursorPosGL cb) < 1.
Proof.
  intros Hw Hh Hx0 Hx1 Hy0 Hy1.
  pose proof (Qc_of_Z_pos _ Hw) as Hwp. pose proof (Qc_of_Z_pos _ Hh) as Hhp.
  rewrite Z2Qc_inj_sub, Z2Qc_inj_1 in Hx1, Hy1.
  unfold getCursorPosGL, v2add, v2sub, v2div, v2scale, f0_5. simpl. qc_ops.
  rewrite Z2Qc_inj_1, Z2Qc_inj_2.
  set (w := Qc_of_Z (screenWidth cb)) in *.
  set (h := Qc_of_Z (screenHeight cb)) in *.
  assert (Hhalf : 0 < 1 / 2 ∧ 1 / 2 < 1) by (split; by vm_compute).
  destruct Hhalf as [Hhalf0 Hhalf1].
  set (hf := 1 / 2) in *. clearbody hf w h.
  assert (Hqx : 0 < (screenMouseX cb + hf) / w ∧ (screenMouseX cb + hf) / w < 1).
  { split.
    - replace 0 with (0 / w) by (field; by apply Qclt_not_eq in Hwp).
      apply Qcdiv_lt_mono; [done|]. qc_lra.
    - rewrite <-(Qcdiv_same w) by (by apply Qclt_not_eq in Hwp).
      apply Qcdiv_lt_mono; [done|]. qc_lra. }
  assert (Hqy : 0 < (screenMouseY cb + hf) / h ∧ (screenMouseY cb + hf) / h < 1).
  { split.
    - replace 0 with (0 / h) by (field; by apply Qclt_not_eq in Hhp).
      apply Qcdiv_lt_mono; [done|]. qc_lra.
    - rewrite <-(Qcdiv_same h) by (by apply Qclt_not_eq in Hhp).
      apply Qcdiv_lt_mono; [done|]. qc_lra. }
  destruct Hqx as [Hqx0 Hqx1]. destruct Hqy as [Hqy0 Hqy1].
  set (qx := (screenMouseX cb + hf) / w) in *.
  set (qy := (screenMouseY cb + hf) / h) in *.
  clearbody qx qy. clear -Hqx0 Hqx1 Hqy0 Hqy1.
  repeat split; qc_lra.
Qed.

Lemma getCursorPosGL_inside_square_witness :
  -1 < x2 (getCursorPosGL (pressed_callbacks false).1) ∧
  x2 (getCursorPosGL (pressed_callbacks false).1) < 1 ∧
  -1 < y2 (getCursorPosGL (pressed_callbacks false).1) ∧
  y2 (getCursorPosGL (pressed_callbacks false).1) < 1.
Proof.
  apply (getCursorPosGL_inside_square (pressed_callbacks false).1);
    [reflexivity | reflexivity | by vm_compute..].
Defined.

Local Close Scope Qc_scope.

(** ** Vertices and colours of the curve *)

(** X16: whenever [efficientBSpline] returns, for any arithmetic and any
    inputs, it returns as many colours as vertices, and every colour is
    [(1, 0.75, 0.2)]. *)
Theorem efficientBSpline_vertices_and_colours {F : Type} `{Scalar F}
    (fuel : nat) (E : list (vec3 F)) (U : list F) (M : list Z) (k m : Z)
    (u_inc : F) (g : CPU_Geometry F) :
  efficientBSpline fuel E U M k m u_inc = Ok g →
  length (verts g) = length (cols g) ∧
  Forall (λ c, c = Vec3 f1 f0_75 f0_2) (cols g).
Proof. apply efficientBSpline_shape. Qed.

Lemma efficientBSpline_vertices_and_colours_witness :
  length (verts (Geometry [pt3 1 0 0; pt3 1 0 0] [curve_colour; curve_colour]))
  = length (cols (Geometry [pt3 1 0 0; pt3 1 0 0] [curve_colour; curve_colour])) ∧
  Forall (λ c, c = Vec3 f1 f0_75 f0_2)
    (cols (Geometry [pt3 1 0 0; pt3 1 0 0] [curve_colour; curve_colour])).
Proof.
  apply (efficientBSpline_vertices_and_colours 3 two_points knots_2_1 [1%Z] 2 1 half).
  apply (bool_decide_unpack _). vm_compute. exact I.
Defined.

Local Open Scope Qc_scope.

(** ** The curve of the frame *)

(** X8: lines 326 to 337 with [k >= 2] and [u_inc > 0] never fault and
    leave the control points alone. With at most one control point the
    curve of the frame before stays as it is; with at least two but fewer
    than [k] the curve is empty; with at least [k] the curve is what
    [efficientBSpline] returns for the control points on their standard
    knots, it has at least one vertex and as many colours as vertices, and
    it is uploaded. How many vertices it has depends on the roundings of
    the counter [u += u_inc] and is not stated. *)
Theorem curve_after_recompute (fuel : nat) (st : Editor Qc) :
  (2 ≤ degree_k st)%Z → 0 < step_u_inc st →
  (sample_count 0 1 (step_u_inc st) < fuel)%nat →
  ∃ st', recompute_curve fuel st = Ok st' ∧ cpuGeom st' = cpuGeom st ∧
    ((length (verts (cpuGeom st)) ≤ 1)%nat → curve st' = curve st) ∧
    ((2 ≤ length (verts (cpuGeom st)))%nat →
     (Z.of_nat (length (verts (cpuGeom st))) < degree_k st)%Z →
     curve st' = Geometry [] []) ∧
    ((2 ≤ length (verts (cpuGeom st)))%nat →
     (degree_k st ≤ Z.of_nat (length (verts (cpuGeom st))))%Z →
     (∃ U, standardKnot (degree_k st)
             (Z.of_nat (length (verts (cpuGeom st))) - 1) = Ok U ∧
           efficientBSpline fuel (verts (cpuGeom st)) U [1%Z] (degree_k st)
             (Z.of_nat (length (verts (cpuGeom st))) - 1) (step_u_inc st)
           = Ok (curve st')) ∧
     (1 ≤ length (verts (curve st')))%nat ∧
     length (cols (curve st')) = length (verts (curve st')) ∧
     curveGPU st' = Uploaded (verts (curve st')) (cols (curve st'))).
Proof.
  intros Hk Hinc Hfuel.
  destruct (recompute_curve_exact fuel st Hk Hinc Hfuel)
    as (st' & Hrun & Hgeom & _ & Hone & Hfew & Hmany).
  exists st'. split; [done|]. split; [done|].
  split; [by intros ->%Hone|]. split; [done|].
  intros H2 Hkn. specialize (Hmany H2 Hkn).
  destruct (recompute_curve_Ok _ _ _ Hrun) as (_ & _ & _ & Hcurve).
  destruct (Hcurve H2) as (U & HU & Hc & Hgpu).
  split; [by exists U|].
  split; [rewrite Hmany; by apply sample_count_pos|].
  split; [|done].
  apply efficientBSpline_shape in Hc as [Hc _]. done.
Qed.

Local Close Scope Qc_scope.

Local Close Scope Qc_scope.

(** ** The theorems above at sample inputs *)

Lemma just_pressed_iff_press_this_frame_witness :
  let cb := pollEvents [left_button GLFW_PRESS]
              (window_800, incrementFrameCount constructedMouseState) in
  leftMouseJustPressed cb.2 = existsb is_left_press [left_button GLFW_PRESS] ∧
  rightMouseJustPressed cb.2 = existsb is_right_press [left_button GLFW_PRESS] ∧
  flags_ok cb.2.
Proof.
  apply (just_pressed_iff_press_this_frame [left_button GLFW_PRESS] window_800
           constructedMouseState).
  split; simpl; lia.
Defined.

Lemma left_press_adds_or_selects_witness :
  ∃ st', edit_points (pressed_callbacks false) initial_editor = Ok st' ∧
    ((∀ v, v ∈ verts (cpuGeom initial_editor) →
           point_hit (pressed_callbacks false).1 (of_int 6) v = false) →
     verts (cpuGeom st')
     = verts (cpuGeom initial_editor)
       ++ [vec3_of (getCursorPosGL (pressed_callbacks false).1) f0] ∧
     cols (cpuGeom st') = cols (cpuGeom initial_editor) ++ [point_colour] ∧
     selectedPointIndex st' = -1) ∧
    (∀ v, v ∈ verts (cpuGeom initial_editor) →
          point_hit (pressed_callbacks false).1 (of_int 6) v = true →
     cpuGeom st' = cpuGeom initial_editor ∧
     ∃ w, vget (verts (cpuGeom initial_editor)) (selectedPointIndex st') = Ok w ∧
          point_hit (pressed_callbacks false).1 (of_int 6) w = true ∧
          ∀ l x, 0 ≤ l < selectedPointIndex st' →
                 vget (verts (cpuGeom initial_editor)) l = Ok x →
                 point_hit (pressed_callbacks false).1 (of_int 6) x = false).
Proof.
  apply (left_press_adds_or_selects (pressed_callbacks false) initial_editor).
  reflexivity.
Defined.

Lemma right_press_erases_first_hit_witness :
  indexOfPointAtCursorPos (pressed_callbacks true).1
    (verts (cpuGeom placed_at_cursor)) (of_int 6) = Ok 0 ∧
  ∃ j st',
    indexOfPointAtCursorPos (pressed_callbacks true).1
      (verts (cpuGeom placed_at_cursor)) (of_int 6) = Ok j ∧
    edit_points (pressed_callbacks true) placed_at_cursor = Ok st' ∧
    selectedPointIndex st' = -1 ∧
    (0 ≤ j →
     verts (cpuGeom st') = delete (Z.to_nat j) (verts (cpuGeom placed_at_cursor)) ∧
     cols (cpuGeom st') = delete (Z.to_nat j) (cols (cpuGeom placed_at_cursor))) ∧
    (j = -1 → cpuGeom st' = cpuGeom placed_at_cursor).
Proof.
  split; [vm_compute; reflexivity|].
  apply (right_press_erases_first_hit (pressed_callbacks true) placed_at_cursor);
    reflexivity.
Defined.

(** The right press of the witness erases the one control point. *)
Example right_press_erases_the_point :
  match edit_points (pressed_callbacks true) placed_at_cursor with
  | Ok st' => cpuGeom st' = Geometry [] [] ∧ selectedPointIndex st' = -1
  | Fault _ => False
  end.
Proof. vm_compute. split; reflexivity. Qed.

Lemma release_ends_the_drag_witness :
  leftMouseActiveVal
    (pollEvents
       ([left_button GLFW_PRESS]
        ++ MouseButtonCall GLFW_MOUSE_BUTTON_LEFT GLFW_RELEASE 0 true
           :: [CursorPosCall (Qc_of_Z 5) (Qc_of_Z 5)])
       (initial_callbacks 800 800)).2 = false.
Proof.
  apply (release_ends_the_drag [left_button GLFW_PRESS]
           [CursorPosCall (Qc_of_Z 5) (Qc_of_Z 5)] 0 true
           (initial_callbacks 800 800)).
  reflexivity.
Defined.

Lemma second_press_adds_nothing_witness :
  ∃ st2,
    edit_points (pressed_callbacks false)
      (with_points initial_editor
         (Geometry [vec3_of (getCursorPosGL (pressed_callbacks false).1) f0]
                   [point_colour])
         (Uploaded [vec3_of (getCursorPosGL (pressed_callbacks false).1) f0]
                   [point_colour])
         (-1)) = Ok st2 ∧
    cpuGeom st2
    = Geometry [vec3_of (getCursorPosGL (pressed_callbacks false).1) f0]
               [point_colour] ∧
    0 ≤ selectedPointIndex st2 < 1.
Proof.
  apply (second_press_adds_nothing (pressed_callbacks false)
           (pressed_callbacks false) initial_editor);
    reflexivity.
Defined.

Lemma curve_after_recompute_witness :
  ∃ st', recompute_curve 10 three_points_editor = Ok st' ∧
    cpuGeom st' = cpuGeom three_points_editor ∧
    ((length (verts (cpuGeom three_points_editor)) ≤ 1)%nat →
     curve st' = curve three_points_editor) ∧
    ((2 ≤ length (verts (cpuGeom three_points_editor)))%nat →
     Z.of_nat (length (verts (cpuGeom three_points_editor)))
     < degree_k three_points_editor →
     curve st' = Geometry [] []) ∧
    ((2 ≤ length (verts (cpuGeom three_points_editor)))%nat →
     degree_k three_points_editor
     ≤ Z.of_nat (length (verts (cpuGeom three_points_editor))) →
     (∃ U, standardKnot (degree_k three_points_editor)
             (Z.of_nat (length (verts (cpuGeom three_points_editor))) - 1) = Ok U ∧
           efficientBSpline 10 (verts (cpuGeom three_points_editor)) U [1]
             (degree_k three_points_editor)
             (Z.of_nat (length (verts (cpuGeom three_points_editor))) - 1)
             (step_u_inc three_points_editor)
           = Ok (curve st')) ∧
     (1 ≤ length (verts (curve st')))%nat ∧
     length (cols (curve st')) = length (verts (curve st')) ∧
     curveGPU st' = Uploaded (verts (curve st')) (cols (curve st'))).
Proof.
  apply (curve_after_recompute 10 three_points_editor);
    [reflexivity | reflexivity | vm_compute; lia].
Defined.

(** The curve of the witness: three control points and [k = 2] give five
    vertices in exact arithmetic. *)
Example three_points_curve :
  match recompute_curve 10 three_points_editor with
  | Ok st' => length (verts (curve st')) = 5%nat
  | Fault _ => False
  end.
Proof. vm_compute. reflexivity. Qed.

Lemma session_inputs_ok : inputs_ok 10 (initial_callbacks 800 800) session.
Proof.
  repeat split; try (intros [=]); try reflexivity; vm_compute; lia.
Defined.

Lemma frames_never_fault_witness :
  ∃ s', frames 10 session (initial_callbacks 800 800, initial_editor) = Ok s' ∧
        flags_ok s'.1.2 ∧ editor_ok s'.1 s'.2.
Proof.
  apply (frames_never_fault 10 session (initial_callbacks 800 800) initial_editor).
  - split; simpl; lia.
  - repeat split; intros [=].
  - exact session_inputs_ok.
Defined.

Lemma drag_moves_the_selected_point_witness :
  let calls := [CursorPosCall (Qc_of_Z 130) (Qc_of_Z 150)] in
  let cb' := pollEvents calls (held_callbacks.1, incrementFrameCount held_callbacks.2) in
  let E' := <[Z.to_nat (selectedPointIndex three_points_editor)
              := vec3_of (getCursorPosGL cb'.1) f0]>
              (verts (cpuGeom three_points_editor)) in
  ∃ st', frame 10 calls (ui_default false) (held_callbacks, three_points_editor)
         = Ok (cb', st') ∧
    verts (cpuGeom st') = E' ∧
    cols (cpuGeom st') = cols (cpuGeom three_points_editor) ∧
    selectedPointIndex st' = selectedPointIndex three_points_editor ∧
    ((length E' ≤ 1)%nat → curve st' = curve three_points_editor) ∧
    ((2 ≤ length E')%nat →
     ∃ U, standardKnot (slider_k (ui_default false)) (Z.of_nat (length E') - 1)
          = Ok U ∧
          efficientBSpline 10 E' U [1] (slider_k (ui_default false))
            (Z.of_nat (length E') - 1) (slider_u_increment (ui_default false))
          = Ok (curve st')).
Proof.
  apply (drag_moves_the_selected_point 10
           [CursorPosCall (Qc_of_Z 130) (Qc_of_Z 150)] (ui_default false)
           held_callbacks three_points_editor).
  - split; simpl; lia.
  - reflexivity.
  - reflexivity.
  - reflexivity.
  - simpl. lia.
  - reflexivity.
  - simpl. lia.
  - reflexivity.
  - vm_compute. lia.
Defined.

(** The frame of the witness moves the second control point to the cursor
    and the curve with it: the curve of the frame differs from the curve of
    the three points where they were. *)
Example drag_changes_the_curve :
  match recompute_curve 10 three_points_editor,
        frame 10 [CursorPosCall (Qc_of_Z 130) (Qc_of_Z 150)] (ui_default false)
          (held_callbacks, three_points_editor) with
  | Ok before, Ok after =>
      verts (cpuGeom after.2) !! 1%nat
      = Some (vec3_of (getCursorPosGL after.1.1) f0) ∧
      curve after.2 ≠ curve before
  | _, _ => False
  end.
Proof. vm_compute. split; [reflexivity | discriminate]. Qed.

Lemma drag_after_Clear_is_out_of_bounds_witness :
  frame 10 [CursorPosCall (Qc_of_Z 130) (Qc_of_Z 150)] (ui_default false)
    held_after_Clear
  = Fault OutOfBounds.
Proof.
  apply (drag_after_Clear_is_out_of_bounds 10 []
           [CursorPosCall (Qc_of_Z 130) (Qc_of_Z 150)]
           (ui_default true) (ui_default false)
           (held_callbacks, one_point_selected) held_after_Clear).
  - split; simpl; lia.
  - reflexivity.
  - vm_compute. reflexivity.
  - reflexivity.
  - simpl. lia.
  - reflexivity.
Defined.

(** The session after its first five frames: two control points, the second
    one selected and moved to the cursor, and a curve of five samples; after
    the sixth, Clear has emptied both. *)
Example session_before_clear :
  match frames 10 (take 5 session) (initial_callbacks 800 800, initial_editor) with
  | Ok s => length (verts (cpuGeom s.2)) = 2%nat ∧
            length (verts (curve s.2)) = 5%nat ∧
            selectedPointIndex s.2 = 1 ∧
            verts (cpuGeom s.2) !! 1%nat = Some (vec3_of (getCursorPosGL s.1.1) f0)
  | Fault _ => False
  end.
Proof.
  vm_compute. repeat split.
Qed.

Example session_after_clear :
  match frames 10 session (initial_callbacks 800 800, initial_editor) with
  | Ok s => cpuGeom s.2 = Geometry [] [] ∧ curve s.2 = Geometry [] []
  | Fault _ => False
  end.
Proof. vm_compute. repeat split. Qed.

(** Clear reported while a selected point is held empties the vertices and
    leaves the selection; the next frame drags into the empty vector. *)
Example clear_while_held_faults :
  frames 10 session_clear_while_held (initial_callbacks 800 800, initial_editor)
  = Fault OutOfBounds.
Proof. vm_compute. reflexivity. Qed.
